(** * utils/response_parser.py: the ResponseParser, embedded and verified

    Python [str] values are lists of 8-bit code points ([list ascii]):
    the model covers the texts whose characters are below U+0100.  On
    that range [isspace], [isdigit] and the case-insensitive comparison
    with the ASCII characters of the patterns are those of CPython.
    Regular expressions have the backtracking semantics of the [re]
    module (as of Python 3.7 for what follows an empty match), given as
    the list of the successes in priority order.  What Python raises
    is a result, [Raise].  The methods are first given as functions of
    the instance and of their arguments, without their logging calls,
    which contribute to no returned value; module [Session] then gives
    them with the state that a call sees and changes, the instance and
    the log, and relates the two. *)

From Stdlib Require Import List Ascii String Bool Arith Lia.
Import ListNotations.

Local Open Scope list_scope.
Local Open Scope bool_scope.

(** ** Strings *)

Module Str.

Definition str := list ascii.

Definition LF : ascii := ascii_of_nat 10.
Definition BACKSLASH : ascii := ascii_of_nat 92.

(** Reads a literal the way Python does, so that inputs can be written
    as in the source: backslash-n is a line feed, a doubled backslash
    is one backslash. *)
Fixpoint unescape (s : str) : str :=
  match s with
  | b :: s' =>
      match s' with
      | c :: t =>
          if Ascii.eqb b BACKSLASH then
            if Ascii.eqb c "n"%char then LF :: unescape t
            else if Ascii.eqb c BACKSLASH then BACKSLASH :: unescape t
            else b :: unescape s'
          else b :: unescape s'
      | [] => s
      end
  | [] => []
  end.

Definition py (s : string) : str := unescape (list_ascii_of_string s).

Fixpoint eqb (a b : str) : bool :=
  match a, b with
  | [], [] => true
  | x :: a', y :: b' => Ascii.eqb x y && eqb a' b'
  | _, _ => false
  end.

(** [str.isspace] on code points below 256. *)
Definition isspace (c : ascii) : bool :=
  let n := nat_of_ascii c in
  ((9 <=? n) && (n <=? 13)) || ((28 <=? n) && (n <=? 32))
  || (n =? 133) || (n =? 160).

(** [\d] on code points below 256: the ASCII digits. *)
Definition isdigit (c : ascii) : bool :=
  let n := nat_of_ascii c in (48 <=? n) && (n <=? 57).

(** Lower and upper case of the ASCII letters; the patterns compare
    with ASCII characters only, which no other character below U+0100
    has as its lower or upper case. *)
Definition lower (c : ascii) : ascii :=
  let n := nat_of_ascii c in
  if (65 <=? n) && (n <=? 90) then ascii_of_nat (n + 32) else c.

Definition upper (c : ascii) : ascii :=
  let n := nat_of_ascii c in
  if (97 <=? n) && (n <=? 122) then ascii_of_nat (n - 32) else c.

Fixpoint lstrip (s : str) : str :=
  match s with
  | c :: t => if isspace c then lstrip t else s
  | [] => []
  end.

Definition rstrip (s : str) : str := rev (lstrip (rev s)).

(** [s.strip()] *)
Definition strip (s : str) : str := lstrip (rstrip s).

(** [s.split('\n')], with the line being read in [cur]. *)
Fixpoint split_lines_acc (cur : str) (s : str) : list str :=
  match s with
  | [] => [rev cur]
  | c :: t =>
      if Ascii.eqb c LF then rev cur :: split_lines_acc [] t
      else split_lines_acc (c :: cur) t
  end.

Definition split_lines (s : str) : list str := split_lines_acc [] s.

(** Truth value of a string or of a list: non-empty. *)
Definition truthy {A} (l : list A) : bool :=
  match l with [] => false | _ :: _ => true end.

End Str.
Import Str.

(** ** Regular expressions: the fragment of [re] the parser uses *)

Module Re.

(** Sets of one character. *)
#[local] Set Warnings "-register-all".
Inductive cset :=
| CChar (c : ascii)            (* a literal character *)
| CDot                         (* .  *)
| CSpace                       (* \s *)
| CDigit                       (* \d *)
| CRange (lo hi : ascii)       (* lo-hi inside a class *)
| CClass (l : list cset).      (* [...] *)

(** Every repetition in the parser's patterns is over one character,
    so repetition is over a [cset]. *)
Inductive regex :=
| Eps
| One (cs : cset)
| Cat (r1 r2 : regex)
| Alt (r1 r2 : regex)          (* r1|r2 *)
| NGroup (r : regex)           (* (?:r) *)
| Opt (r : regex)              (* r?  *)
| Star (cs : cset)             (* cs*  *)
| Plus (cs : cset)             (* cs+  *)
| StarLazy (cs : cset)         (* cs*? *)
| PlusLazy (cs : cset)         (* cs+? *)
| Group (r : regex)            (* (r), the pattern's group 1 *)
| Ahead (r : regex)            (* (?=r) *)
| Bol                          (* ^ *)
| Eol.                         (* $ *)

Record flags := { IGNORECASE : bool; MULTILINE : bool; DOTALL : bool }.

Definition no_flags := {| IGNORECASE := false; MULTILINE := false; DOTALL := false |}.

(** A position in the subject: its index, the character before it and
    the text from it on. *)
Record cursor := { pos : nat; prev : option ascii; rest : str }.

Definition start_of (s : str) : cursor := {| pos := 0; prev := None; rest := s |}.

Definition advance (c : cursor) : cursor :=
  match rest c with
  | x :: t => {| pos := S (pos c); prev := Some x; rest := t |}
  | [] => c
  end.

Definition in_range (lo hi x : ascii) : bool :=
  (nat_of_ascii lo <=? nat_of_ascii x) && (nat_of_ascii x <=? nat_of_ascii hi).

Fixpoint cset_match (f : flags) (cs : cset) (x : ascii) : bool :=
  match cs with
  | CChar c => if IGNORECASE f then Ascii.eqb (lower x) (lower c) else Ascii.eqb x c
  | CDot => DOTALL f || negb (Ascii.eqb x LF)
  | CSpace => isspace x
  | CDigit => isdigit x
  | CRange lo hi =>
      in_range lo hi x
      || (IGNORECASE f && (in_range lo hi (lower x) || in_range lo hi (upper x)))
  | CClass l => existsb (fun a => cset_match f a x) l
  end.

Definition at_bol (f : flags) (c : cursor) : bool :=
  match prev c with
  | None => true
  | Some x => MULTILINE f && Ascii.eqb x LF
  end.

Definition at_eol (f : flags) (c : cursor) : bool :=
  match rest c with
  | [] => true
  | x :: t => Ascii.eqb x LF && (MULTILINE f || negb (truthy t))
  end.

(** The positions reached by [cs*] from a position, longest first. *)
Fixpoint star_greedy (p : ascii -> bool) (i : nat) (pv : option ascii) (s : str)
  : list cursor :=
  match s with
  | x :: t =>
      if p x then star_greedy p (S i) (Some x) t ++ [{| pos := i; prev := pv; rest := s |}]
      else [{| pos := i; prev := pv; rest := s |}]
  | [] => [{| pos := i; prev := pv; rest := s |}]
  end.

(** The positions reached by [cs*?] from a position, shortest first. *)
Fixpoint star_lazy (p : ascii -> bool) (i : nat) (pv : option ascii) (s : str)
  : list cursor :=
  {| pos := i; prev := pv; rest := s |} ::
  match s with
  | x :: t => if p x then star_lazy p (S i) (Some x) t else []
  | [] => []
  end.

Definition plus_of (star : (ascii -> bool) -> nat -> option ascii -> str -> list cursor)
  (p : ascii -> bool) (c : cursor) : list cursor :=
  match rest c with
  | x :: t => if p x then star p (S (pos c)) (Some x) t else []
  | [] => []
  end.

(** A state of the matcher: where it is, and what group 1 holds. *)
Definition mstate := (cursor * option str)%type.

(** All the ways [r] matches from a state, in the order in which the
    backtracking matcher of [re] tries them. *)
Fixpoint exec (f : flags) (r : regex) (st : mstate) : list mstate :=
  let '(c, g) := st in
  match r with
  | Eps => [st]
  | One cs =>
      match rest c with
      | x :: _ => if cset_match f cs x then [(advance c, g)] else []
      | [] => []
      end
  | Cat r1 r2 => flat_map (exec f r2) (exec f r1 st)
  | Alt r1 r2 => exec f r1 st ++ exec f r2 st
  | NGroup r1 => exec f r1 st
  | Opt r1 => exec f r1 st ++ [st]
  | Star cs => map (fun c' => (c', g)) (star_greedy (cset_match f cs) (pos c) (prev c) (rest c))
  | Plus cs => map (fun c' => (c', g)) (plus_of star_greedy (cset_match f cs) c)
  | StarLazy cs => map (fun c' => (c', g)) (star_lazy (cset_match f cs) (pos c) (prev c) (rest c))
  | PlusLazy cs => map (fun c' => (c', g)) (plus_of star_lazy (cset_match f cs) c)
  | Group r1 =>
      map (fun st' => (fst st', Some (firstn (pos (fst st') - pos c) (rest c))))
          (exec f r1 st)
  | Ahead r1 => if truthy (exec f r1 st) then [st] else []
  | Bol => if at_bol f c then [st] else []
  | Eol => if at_eol f c then [st] else []
  end.

(** A match object: where it starts, where it stops, and group 1
    ([None] when the group took no part in the match). *)
Record Match := { m_start : nat; m_stop : cursor; m_group1 : option str }.

(** The leftmost match from a cursor on.  With [must_advance] a match
    that is empty at the cursor itself is passed over, as the scanner
    of [findall] and [sub] does right after an empty match. *)
Fixpoint scan_from (f : flags) (r : regex) (origin : nat) (must_advance : bool)
  (i : nat) (pv : option ascii) (s : str) : option Match :=
  let here := {| pos := i; prev := pv; rest := s |} in
  let ok (st : mstate) := negb (must_advance && (pos (fst st) =? origin)) in
  match filter ok (exec f r (here, None)) with
  | st :: _ => Some {| m_start := i; m_stop := fst st; m_group1 := snd st |}
  | [] =>
      match s with
      | x :: t => scan_from f r origin must_advance (S i) (Some x) t
      | [] => None
      end
  end.

(** [re.search(r, text, f)] *)
Definition search (r : regex) (text : str) (f : flags) : option Match :=
  scan_from f r 0 false 0 None text.

(** The successive matches of [finditer]: each scan resumes where the
    previous match stopped. *)
Fixpoint matches_from (fuel : nat) (f : flags) (r : regex) (must_advance : bool)
  (c : cursor) : list Match :=
  match fuel with
  | 0 => []
  | S fuel' =>
      match scan_from f r (pos c) must_advance (pos c) (prev c) (rest c) with
      | None => []
      | Some m =>
          m :: matches_from fuel' f r (pos (m_stop m) =? m_start m) (m_stop m)
      end
  end.

(** Two scans consume at least one character, hence the bound. *)
Definition finditer (r : regex) (text : str) (f : flags) : list Match :=
  matches_from (2 * List.length text + 2) f r false (start_of text).

(** [re.findall(r, text, f)] for a pattern with one group: the group
    of every match, the empty string where it took no part. *)
Definition findall (r : regex) (text : str) (f : flags) : list str :=
  map (fun m => match m_group1 m with Some g => g | None => [] end)
      (finditer r text f).

Fixpoint sub_build (repl : str) (i : nat) (s : str) (ms : list Match) : str :=
  match ms with
  | [] => s
  | m :: ms' =>
      firstn (m_start m - i) s ++ repl
        ++ sub_build repl (pos (m_stop m)) (rest (m_stop m)) ms'
  end.

(** [re.sub(r, repl, text)] with a replacement free of group references. *)
Definition sub (r : regex) (repl : str) (text : str) : str :=
  sub_build repl 0 text (finditer r text no_flags).

(** Pattern syntax. *)
Definition lit (s : string) : regex :=
  fold_right (fun c r => Cat (One (CChar c)) r) Eps (py s).

Definition seq (l : list regex) : regex := fold_right Cat Eps l.

Fixpoint alt (l : list regex) : regex :=
  match l with
  | [] => One (CClass [])
  | [r] => r
  | r :: t => Alt r (alt t)
  end.

(** The pattern as the source writes it, to compare the patterns
    below with the source's. *)
Definition char_source (c : ascii) : string :=
  if Ascii.eqb c LF then "\n"
  else if Ascii.eqb c "." then "\."
  else String c EmptyString.

Fixpoint cset_source (cs : cset) : string :=
  match cs with
  | CChar c => char_source c
  | CDot => "."
  | CSpace => "\s"
  | CDigit => "\d"
  | CRange lo hi => String lo (String "-" (String hi EmptyString))
  | CClass l => "[" ++ String.concat "" (map cset_source l) ++ "]"
  end%string.

Fixpoint to_source (r : regex) : string :=
  match r with
  | Eps => ""
  | One cs => cset_source cs
  | Cat r1 r2 => to_source r1 ++ to_source r2
  | Alt r1 r2 => to_source r1 ++ "|" ++ to_source r2
  | NGroup r1 => "(?:" ++ to_source r1 ++ ")"
  | Opt r1 => to_source r1 ++ "?"
  | Star cs => cset_source cs ++ "*"
  | Plus cs => cset_source cs ++ "+"
  | StarLazy cs => cset_source cs ++ "*?"
  | PlusLazy cs => cset_source cs ++ "+?"
  | Group r1 => "(" ++ to_source r1 ++ ")"
  | Ahead r1 => "(?=" ++ to_source r1 ++ ")"
  | Bol => "^"
  | Eol => "$"
  end%string.

End Re.
Import Re.

(** ** Dictionaries, dynamic values and exceptions *)

Module Py.

(** A [dict] keeps its keys in insertion order; assigning to a key that
    is present keeps the key's place. *)
Definition dict (V : Type) := list (str * V).

Fixpoint dict_get {V} (d : dict V) (k : str) : option V :=
  match d with
  | [] => None
  | (k', v) :: d' => if Str.eqb k' k then Some v else dict_get d' k
  end.

Fixpoint dict_set {V} (d : dict V) (k : str) (v : V) : dict V :=
  match d with
  | [] => [(k, v)]
  | (k', v') :: d' =>
      if Str.eqb k' k then (k', v) :: d' else (k', v') :: dict_set d' k v
  end.

Definition keys {V} (d : dict V) : list str := map fst d.

(** [dict.fromkeys(items)] *)
Definition fromkeys (items : list str) : dict unit :=
  fold_left (fun d k => dict_set d k tt) items [].

(** The values the parser stores in its records. *)
Inductive value :=
| VStr (s : str)
| VList (l : list str).

Definition value_truthy (v : value) : bool :=
  match v with VStr s => truthy s | VList l => truthy l end.

Definition value_len (v : value) : nat :=
  match v with VStr s => List.length s | VList l => List.length l end.

(** Truth value of [d.get(k)], which is [None] for a missing key. *)
Definition get_truthy (d : dict value) (k : str) : bool :=
  match dict_get d k with Some v => value_truthy v | None => false end.

Inductive exn := KeyError | AttributeError | TypeError.

Inductive result (A : Type) :=
| Ok (a : A)
| Raise (e : exn).
Arguments Ok {A} a.
Arguments Raise {A} e.

Definition bind {A B} (m : result A) (k : A -> result B) : result B :=
  match m with Ok a => k a | Raise e => Raise e end.

(** [d[k]] *)
Definition dict_index {V} (d : dict V) (k : str) : result V :=
  match dict_get d k with Some v => Ok v | None => Raise KeyError end.

End Py.
Import Py.

Notation "x <- m ;; k" := (bind m (fun x => k))
  (at level 61, m at next level, right associativity).

(** ** class ResponseParser *)

Module ResponseParser.

(** [[:\n]*] and [(.*?)], shared by every section pattern. *)
Definition colons : regex := Star (CClass [CChar ":"; CChar LF]).
Definition body : regex := Group (StarLazy CDot).

Record t := { section_patterns : dict (list regex) }.

(** [__init__]; the lemma [section_patterns_source] gives every pattern
    as the source writes it. *)
Definition __init__ : t :=
  {| section_patterns :=
    [ (py "summary",
       [ seq [Opt (NGroup (seq [lit "1."; Star CSpace])); lit "EXECUTIVE SUMMARY"; colons; body;
              Ahead (seq [lit "\n"; NGroup (alt [lit "2."; lit "MARKET ANALYSIS"; Eol])])];
         seq [Opt (NGroup (seq [lit "##"; Star CSpace])); lit "EXECUTIVE SUMMARY"; colons; body;
              Ahead (alt [lit "\n##"; Eol])];
         seq [lit "SUMMARY"; colons; body;
              Ahead (seq [lit "\n"; NGroup (alt [lit "MARKET"; lit "ANALYSIS"; Eol])])] ]);
      (py "market_analysis",
       [ seq [Opt (NGroup (seq [lit "2."; Star CSpace])); lit "MARKET ANALYSIS"; colons; body;
              Ahead (seq [lit "\n"; NGroup (alt [lit "3."; lit "TECHNICAL DETAILS"; Eol])])];
         seq [Opt (NGroup (seq [lit "##"; Star CSpace])); lit "MARKET ANALYSIS"; colons; body;
              Ahead (alt [lit "\n##"; Eol])];
         seq [lit "MARKET"; colons; body;
              Ahead (seq [lit "\n"; NGroup (alt [lit "TECHNICAL"; lit "DETAILS"; Eol])])] ]);
      (py "technical_details",
       [ seq [Opt (NGroup (seq [lit "3."; Star CSpace])); lit "TECHNICAL DETAILS"; colons; body;
              Ahead (seq [lit "\n"; NGroup (alt [lit "4."; lit "BUSINESS OPPORTUNITIES"; Eol])])];
         seq [Opt (NGroup (seq [lit "##"; Star CSpace])); lit "TECHNICAL DETAILS"; colons; body;
              Ahead (alt [lit "\n##"; Eol])];
         seq [lit "TECHNICAL"; colons; body;
              Ahead (seq [lit "\n"; NGroup (alt [lit "BUSINESS"; lit "OPPORTUNITIES"; Eol])])] ]);
      (py "business_opportunities",
       [ seq [Opt (NGroup (seq [lit "4."; Star CSpace])); lit "BUSINESS OPPORTUNITIES"; colons; body;
              Ahead (seq [lit "\n"; NGroup (alt [lit "5."; lit "KEY PLAYERS"; Eol])])];
         seq [Opt (NGroup (seq [lit "##"; Star CSpace])); lit "BUSINESS OPPORTUNITIES"; colons; body;
              Ahead (alt [lit "\n##"; Eol])];
         seq [lit "BUSINESS"; colons; body;
              Ahead (seq [lit "\n"; NGroup (alt [lit "KEY"; lit "PLAYERS"; Eol])])] ]);
      (py "key_players",
       [ seq [Opt (NGroup (seq [lit "5."; Star CSpace])); lit "KEY PLAYERS"; colons; body;
              Ahead (seq [lit "\n"; NGroup (alt [lit "6."; lit "TRENDS"; Eol])])];
         seq [Opt (NGroup (seq [lit "##"; Star CSpace])); lit "KEY PLAYERS"; colons; body;
              Ahead (alt [lit "\n##"; Eol])];
         seq [lit "KEY PLAYERS"; colons; body;
              Ahead (seq [lit "\n"; NGroup (alt [lit "TRENDS"; Eol])])] ]);
      (py "trends",
       [ seq [Opt (NGroup (seq [lit "6."; Star CSpace])); lit "TRENDS"; colons; body;
              Ahead (alt [lit "\n##"; Eol])];
         seq [Opt (NGroup (seq [lit "##"; Star CSpace])); lit "TRENDS"; colons; body;
              Ahead (alt [lit "\n##"; Eol])];
         seq [lit "TRENDS"; colons; body; Eol] ]) ] |}.

(** [re.DOTALL | re.IGNORECASE] *)
Definition DOTALL_IGNORECASE : flags :=
  {| IGNORECASE := true; MULTILINE := false; DOTALL := true |}.

(** [re.MULTILINE] *)
Definition MULTILINE_only : flags :=
  {| IGNORECASE := false; MULTILINE := true; DOTALL := false |}.

(** [_get_empty_result] *)
Definition _get_empty_result (self : t) : dict value :=
  [ (py "summary", VStr []);
    (py "market_analysis", VStr []);
    (py "technical_details", VStr []);
    (py "business_opportunities", VStr []);
    (py "key_players", VList []);
    (py "trends", VList []) ].

(** [_clean_response] *)
Definition _clean_response (self : t) (response : str) : str :=
  let cleaned := sub (seq [lit "\n"; Star CSpace; lit "\n"]) (py "\n\n") response in
  strip cleaned.

(** The test [content and len(content) > 10]. *)
Definition long_enough (content : str) : bool :=
  truthy content && (10 <? List.length content).

(** The headers of [_extract_by_header]. *)
Definition headers : dict (list string) :=
  [ (py "summary", ["EXECUTIVE SUMMARY"; "SUMMARY"]%string);
    (py "market_analysis", ["MARKET ANALYSIS"; "MARKET"]%string);
    (py "technical_details", ["TECHNICAL DETAILS"; "TECHNICAL"]%string);
    (py "business_opportunities", ["BUSINESS OPPORTUNITIES"; "BUSINESS"]%string);
    (py "key_players", ["KEY PLAYERS"; "PLAYERS"]%string);
    (py "trends", ["TRENDS"]%string) ].

(** The pattern built from a header by the f-string. *)
Definition header_pattern (header : string) : regex :=
  seq [lit header; colons; body;
       Ahead (seq [lit "\n";
                   NGroup (alt [seq [Plus (CClass [CRange "A" "Z"; CSpace]); lit ":"]; Eol])])].

(** The loop of [_extract_by_header].  [match.group(1)] is [None] when
    the group took no part, and [None.strip()] raises. *)
Fixpoint by_header_loop (text : str) (section_headers : list string) : result str :=
  match section_headers with
  | [] => Ok []
  | header :: more =>
      match search (header_pattern header) text DOTALL_IGNORECASE with
      | Some m =>
          match m_group1 m with
          | Some g =>
              let content := strip g in
              if long_enough content then Ok content else by_header_loop text more
          | None => Raise AttributeError
          end
      | None => by_header_loop text more
      end
  end.

(** [_extract_by_header] *)
Definition _extract_by_header (self : t) (text : str) (section_name : str) : result str :=
  let section_headers :=
    match dict_get headers section_name with Some l => l | None => [] end in
  by_header_loop text section_headers.

(** The loop of [_extract_section]: [Some content] when a pattern
    returns.  An exception inside the [try] moves on to the next
    pattern. *)
Fixpoint pattern_loop (text : str) (patterns : list regex) : option str :=
  match patterns with
  | [] => None
  | pattern :: more =>
      match search pattern text DOTALL_IGNORECASE with
      | Some m =>
          match m_group1 m with
          | Some g =>
              let content := strip g in
              if long_enough content then Some content else pattern_loop text more
          | None => pattern_loop text more
          end
      | None => pattern_loop text more
      end
  end.

(** [_extract_section] *)
Definition _extract_section (self : t) (text : str) (patterns : list regex)
  (section_name : str) : result str :=
  match pattern_loop text patterns with
  | Some content => Ok content
  | None => _extract_by_header self text section_name
  end.

(** The lookahead that closes an item of the first list pattern, and
    that pattern. *)
Definition line_end : regex :=
  Ahead (alt [seq [lit "\n"; One (CClass [CChar "-"])]; lit "\n\n"; Eol]).

Definition bullet_pattern : regex :=
  seq [One (CClass [CChar "-"]); Star CSpace; Group (PlusLazy CDot); line_end].

(** The list patterns of [_extract_list_items]. *)
Definition list_patterns : list regex :=
  [ bullet_pattern;
    seq [Plus CDigit; lit "."; Star CSpace; Group (PlusLazy CDot);
         Ahead (alt [seq [lit "\n"; Plus CDigit; lit "."]; lit "\n\n"; Eol])];
    seq [Bol; Star CSpace; One (CClass [CChar "-"]); Star CSpace; Group (PlusLazy CDot); Eol];
    seq [Bol; Star CSpace; Plus CDigit; lit "."; Star CSpace; Group (PlusLazy CDot); Eol] ].

(** [[match.strip() for match in matches if match.strip()]] *)
Definition stripped_nonempty (matches : list str) : list str :=
  map strip (filter (fun m => truthy (strip m)) matches).

(** The first loop of [_extract_list_items]: the first pattern with a
    match gives the items. *)
Fixpoint list_pattern_loop (text : str) (patterns : list regex) : list str :=
  match patterns with
  | [] => []
  | pattern :: more =>
      let matches := findall pattern text MULTILINE_only in
      if truthy matches then stripped_nonempty matches
      else list_pattern_loop text more
  end.

(** The [re.sub] that removes a line's prefix. *)
Definition strip_prefix (line : str) : str :=
  sub (seq [Bol; Plus (CClass [CChar "-"; CDigit; CChar "."; CSpace])]) [] line.

(** The second loop of [_extract_list_items], over the lines. *)
Fixpoint line_loop (lines : list str) : list str :=
  match lines with
  | [] => []
  | line :: more =>
      let line := strip line in
      if truthy line && (5 <? List.length line) then
        let line := strip_prefix line in
        if truthy line then line :: line_loop more else line_loop more
      else line_loop more
  end.

(** The [items] of [_extract_list_items] before duplicates are removed:
    those of the first pattern that matches, and when there are none,
    those of the lines. *)
Definition collect_items (text : str) : list str :=
  let items := list_pattern_loop text list_patterns in
  if negb (truthy items) then items ++ line_loop (split_lines text) else items.

(** [_extract_list_items] *)
Definition _extract_list_items (self : t) (text : str) : list str :=
  let items := collect_items text in
  let unique_items := keys (fromkeys items) in
  firstn 10 unique_items.

(** The first loop of [parse_research_response]. *)
Fixpoint section_loop (self : t) (cleaned_response : str)
  (items : list (str * list regex)) (parsed_data : dict value) : result (dict value) :=
  match items with
  | [] => Ok parsed_data
  | (section_name, patterns) :: more =>
      content <- _extract_section self cleaned_response patterns section_name ;;
      section_loop self cleaned_response more
        (dict_set parsed_data section_name (VStr content))
  end.

(** [parsed_data[k] = self._extract_list_items(parsed_data[k])] under
    [if parsed_data.get(k):].  A list where text is expected makes
    [re.findall] raise. *)
Definition listify (self : t) (parsed_data : dict value) (k : str) : result (dict value) :=
  if get_truthy parsed_data k then
    v <- dict_index parsed_data k ;;
    match v with
    | VStr text => Ok (dict_set parsed_data k (VList (_extract_list_items self text)))
    | VList _ => Raise TypeError
    end
  else Ok parsed_data.

(** [parse_research_response] *)
Definition parse_research_response (self : t) (response : str) : result (dict value) :=
  if negb (truthy response) || Str.eqb (strip response) [] then
    Ok (_get_empty_result self)
  else
    let cleaned_response := _clean_response self response in
    parsed_data <- section_loop self cleaned_response (section_patterns self) [] ;;
    parsed_data <- listify self parsed_data (py "key_players") ;;
    parsed_data <- listify self parsed_data (py "trends") ;;
    Ok parsed_data.

Definition required_sections : list str :=
  [py "summary"; py "market_analysis"; py "technical_details"; py "business_opportunities"].

(** [bool(content and len(content) > 50)] with [content = data.get(section, '')] *)
Definition adequate (data : dict value) (section : str) : bool :=
  let content := match dict_get data section with Some v => v | None => VStr [] end in
  value_truthy content && (50 <? value_len content).

(** [validate_parsed_data] *)
Definition validate_parsed_data (self : t) (data : dict value) : dict bool :=
  let validation :=
    fold_left (fun validation section => dict_set validation section (adequate data section))
              required_sections [] in
  let validation := dict_set validation (py "key_players") (get_truthy data (py "key_players")) in
  let validation := dict_set validation (py "trends") (get_truthy data (py "trends")) in
  validation.

End ResponseParser.
Import ResponseParser.

(** ** The methods with the state they can see and change *)

Module Session.

Inductive level := INFO | WARNING.

(** The messages of the parser's logging calls, with the values that
    their f-strings insert. *)
Inductive message :=
| EmptyResponseReceived
| ParsingResponseOfLength (n : nat)
| Extracted (section_name : str) (n : nat)
| FailedToExtract (section_name : str)
| PatternFailedFor (section_name : str) (e : exn).

(** What a call can see and change: the attributes of the instance and
    the records passed to the module's logger. *)
Record world := { instance : ResponseParser.t; log : list (level * message) }.

(** A method body: from the world before to a result, or an exception,
    and the world after. *)
Definition M (A : Type) := world -> result A * world.

Definition ret {A} (a : A) : M A := fun w => (Ok a, w).

Definition raise {A} (e : exn) : M A := fun w => (Raise e, w).

Definition bind {A B} (m : M A) (k : A -> M B) : M B :=
  fun w =>
    match m w with
    | (Ok a, w') => k a w'
    | (Raise e, w') => (Raise e, w')
    end.

(** A computation that raises or returns without a look at the world. *)
Definition lift {A} (r : result A) : M A := fun w => (r, w).

(** [self] *)
Definition get_self : M ResponseParser.t := fun w => (Ok (instance w), w).

(** [self.section_patterns = patterns] *)
Definition set_section_patterns (patterns : dict (list regex)) : M unit :=
  fun w => (Ok tt, {| instance := {| section_patterns := patterns |}; log := log w |}).

(** [logger.info(...)] and [logger.warning(...)] *)
Definition emit (l : level) (m : message) : M unit :=
  fun w => (Ok tt, {| instance := instance w; log := log w ++ [(l, m)] |}).

Notation "x <~ m ;; k" := (bind m (fun x => k))
  (at level 61, m at next level, right associativity).
Notation "m ;;; k" := (bind m (fun _ => k))
  (at level 61, right associativity).

(** [_get_empty_result], [_clean_response], [_extract_by_header] and
    [_extract_list_items] do not log and read no attribute. *)
Definition _get_empty_result : M (dict value) :=
  self <~ get_self ;; ret (ResponseParser._get_empty_result self).

Definition _clean_response (response : str) : M str :=
  self <~ get_self ;; ret (ResponseParser._clean_response self response).

Definition _extract_by_header (text : str) (section_name : str) : M str :=
  self <~ get_self ;; lift (ResponseParser._extract_by_header self text section_name).

Definition _extract_list_items (text : str) : M (list str) :=
  self <~ get_self ;; ret (ResponseParser._extract_list_items self text).

(** The loop of [_extract_section]; the [except] clause logs. *)
Fixpoint pattern_loop (text : str) (patterns : list regex) (section_name : str)
  : M (option str) :=
  match patterns with
  | [] => ret None
  | pattern :: more =>
      match search pattern text DOTALL_IGNORECASE with
      | Some m =>
          match m_group1 m with
          | Some g =>
              let content := strip g in
              if long_enough content then ret (Some content)
              else pattern_loop text more section_name
          | None =>
              emit WARNING (PatternFailedFor section_name AttributeError) ;;;
              pattern_loop text more section_name
          end
      | None => pattern_loop text more section_name
      end
  end.

(** [_extract_section] *)
Definition _extract_section (text : str) (patterns : list regex) (section_name : str)
  : M str :=
  found <~ pattern_loop text patterns section_name ;;
  match found with
  | Some content => ret content
  | None => _extract_by_header text section_name
  end.

(** The first loop of [parse_research_response], with its two logging
    calls. *)
Fixpoint section_loop (cleaned_response : str) (items : list (str * list regex))
  (parsed_data : dict value) : M (dict value) :=
  match items with
  | [] => ret parsed_data
  | (section_name, patterns) :: more =>
      content <~ _extract_section cleaned_response patterns section_name ;;
      let parsed_data := dict_set parsed_data section_name (VStr content) in
      (if truthy content
       then emit INFO (Extracted section_name (List.length content))
       else emit WARNING (FailedToExtract section_name)) ;;;
      section_loop cleaned_response more parsed_data
  end.

Definition listify (parsed_data : dict value) (k : str) : M (dict value) :=
  if get_truthy parsed_data k then
    v <~ lift (dict_index parsed_data k) ;;
    match v with
    | VStr text =>
        items <~ _extract_list_items text ;;
        ret (dict_set parsed_data k (VList items))
    | VList _ => raise TypeError
    end
  else ret parsed_data.

(** [parse_research_response] *)
Definition parse_research_response (response : str) : M (dict value) :=
  if negb (truthy response) || Str.eqb (strip response) [] then
    emit WARNING EmptyResponseReceived ;;;
    _get_empty_result
  else
    emit INFO (ParsingResponseOfLength (List.length response)) ;;;
    cleaned_response <~ _clean_response response ;;
    self <~ get_self ;;
    parsed_data <~ section_loop cleaned_response (section_patterns self) [] ;;
    parsed_data <~ listify parsed_data (py "key_players") ;;
    parsed_data <~ listify parsed_data (py "trends") ;;
    ret parsed_data.

(** [validate_parsed_data] does not log and reads no attribute. *)
Definition validate_parsed_data (data : dict value) : M (dict bool) :=
  self <~ get_self ;; ret (ResponseParser.validate_parsed_data self data).

(** [__init__]: the one place that assigns to an attribute. *)
Definition __init__ : M unit :=
  set_section_patterns (section_patterns ResponseParser.__init__).

(** [ResponseParser()]: a new instance, initialised. *)
Definition new (log0 : list (level * message)) : world :=
  snd (__init__ {| instance := {| section_patterns := [] |}; log := log0 |}).

(** Calls of the public methods on the instance, one after the other;
    an exception ends its call and the next call goes on. *)
Inductive call :=
| Parse (response : str)
| ExtractList (text : str)
| Validate (data : dict value).

Inductive reply :=
| Parsed (d : dict value)
| Items (l : list str)
| Validation (v : dict bool).

Definition invoke (c : call) : M reply :=
  match c with
  | Parse response => d <~ parse_research_response response ;; ret (Parsed d)
  | ExtractList text => l <~ _extract_list_items text ;; ret (Items l)
  | Validate data => v <~ validate_parsed_data data ;; ret (Validation v)
  end.

Fixpoint run (cs : list call) (w : world) : list (result reply) * world :=
  match cs with
  | [] => ([], w)
  | c :: cs' =>
      let (r, w') := invoke c w in
      let (rs, w'') := run cs' w' in
      (r :: rs, w'')
  end.

(** The world with more records in its log. *)
Definition logged (w : world) (records : list (level * message)) : world :=
  {| instance := instance w; log := log w ++ records |}.

End Session.

(** * Vocabulary of the properties *)

Module Props.

(** [c'] is [c] or a later position of the same subject. *)
Definition after (c c' : cursor) : Prop :=
  exists p, rest c = p ++ rest c' /\ pos c' = pos c + List.length p.

(** Patterns in which every match goes through group 1. *)
Fixpoint binds_group (r : regex) : bool :=
  match r with
  | Group _ => true
  | Cat r1 r2 => binds_group r1 || binds_group r2
  | Alt r1 r2 => binds_group r1 && binds_group r2
  | NGroup r1 => binds_group r1
  | _ => false
  end.

(** No white space at either end. *)
Definition trimmed (s : str) : Prop :=
  (forall x t, s = x :: t -> isspace x = false)
  /\ (forall x t, s = t ++ [x] -> isspace x = false).

(** What a section field may hold: nothing, or trimmed text of more
    than ten characters. *)
Definition section_text (s : str) : Prop :=
  s = [] \/ (10 < List.length s /\ trimmed s).

(** Each distinct item once, in first-seen order. *)
Fixpoint first_seen (items : list str) : list str :=
  match items with
  | [] => []
  | x :: t => x :: filter (fun y => negb (Str.eqb y x)) (first_seen t)
  end.

(** A bullet line of an item, and lines joined by line feeds. *)
Definition bullet_line (item : str) : str := py "- " ++ item.

Fixpoint join_lines (lines : list str) : str :=
  match lines with
  | [] => []
  | l :: more =>
      match more with
      | [] => l
      | _ :: _ => l ++ LF :: join_lines more
      end
  end.

(** An item that makes a valid bullet line: not empty, on one line,
    with no white space at either end. *)
Definition valid_item (item : str) : Prop :=
  item <> []
  /\ existsb (Ascii.eqb LF) item = false
  /\ isspace (hd LF item) = false
  /\ isspace (last item LF) = false.

(** Fifteen distinct items. *)
Definition fifteen_items : list str :=
  [ py "Item 01"; py "Item 02"; py "Item 03"; py "Item 04"; py "Item 05";
    py "Item 06"; py "Item 07"; py "Item 08"; py "Item 09"; py "Item 10";
    py "Item 11"; py "Item 12"; py "Item 13"; py "Item 14"; py "Item 15" ].

(** The end of the subject or a line feed. *)
Definition line_break (tl : str) : Prop := tl = [] \/ exists t, tl = LF :: t.

(** The character before the position that follows [w]. *)
Definition prev_after (pv : option ascii) (w : str) : option ascii :=
  fold_left (fun _ x => Some x) w pv.

(** A dictionary's keys after an assignment to [k]. *)
Definition add_key (ks : list str) (k : str) : list str :=
  if existsb (Str.eqb k) ks then ks else ks ++ [k].

(** The six field names, in the order of [section_patterns]. *)
Definition field_names : list str :=
  [py "summary"; py "market_analysis"; py "technical_details";
   py "business_opportunities"; py "key_players"; py "trends"].

(** Every value of the record under construction is section text. *)
Definition all_section_text (d : dict value) : Prop :=
  forall k v, dict_get d k = Some v -> exists c, v = VStr c /\ section_text c.

(** The shape of the records [parse_research_response] returns: the
    six keys, section text under the four string fields, and under
    each list field the empty string or a list. *)
Definition well_formed (d : dict value) : Prop :=
  keys d = field_names
  /\ Forall (fun k => exists c, dict_get d k = Some (VStr c) /\ section_text c)
            required_sections
  /\ Forall (fun k => dict_get d k = Some (VStr []) \/ exists l, dict_get d k = Some (VList l))
            [py "key_players"; py "trends"].

End Props.
Import Props.

(** ** core/research_engine.py: the confidence score *)

Module ResearchEngine.

(** The [sections] of [_calculate_confidence_score]. *)
Definition sections : list str :=
  [py "summary"; py "market_analysis"; py "technical_details"; py "business_opportunities"].

(** The loop of [_calculate_confidence_score].  The score is a float
    in the source; every value it takes is a whole number from 0 to
    105, which a float holds exactly, and the score is counted here in
    whole points. *)
Fixpoint section_score (parsed_data : dict value) (sections : list str) (score : nat)
  : result nat :=
  match sections with
  | [] => Ok score
  | section :: more =>
      if get_truthy parsed_data section then
        v <- dict_index parsed_data section ;;
        section_score parsed_data more (if 50 <? value_len v then score + 20 else score)
      else section_score parsed_data more score
  end.

(** [_calculate_confidence_score]; [self] is not used. *)
Definition _calculate_confidence_score {A} (parsed_data : dict value) (news_data : list A)
  : result nat :=
  score <- section_score parsed_data sections 0 ;;
  let score := if get_truthy parsed_data (py "key_players") then score + 10 else score in
  let score := if get_truthy parsed_data (py "trends") then score + 10 else score in
  let score := if truthy news_data then Nat.min (score + 5) 100 else score in
  Ok (Nat.min score 100).

End ResearchEngine.
Import ResearchEngine.

(** * Vocabulary of the further properties *)

Module Further.

(** What is left of [s] after its longest prefix of characters in [p]. *)
Fixpoint drop_while (p : ascii -> bool) (s : str) : str :=
  match s with
  | x :: t => if p x then drop_while p t else s
  | [] => []
  end.

(** A hyphen, a digit, a dot or white space: what [strip_prefix] removes. *)
Definition prefix_char (x : ascii) : bool :=
  Ascii.eqb x "-" || isdigit x || Ascii.eqb x "." || isspace x.

(** [g] is a contiguous part of [text]. *)
Definition infix (g text : str) : Prop := exists a b, text = a ++ g ++ b.

(** Every match of the pattern takes a character of [Q]. *)
Fixpoint demands (f : flags) (Q : ascii -> bool) (r : regex) : Prop :=
  match r with
  | One cs | Plus cs | PlusLazy cs => forall x, cset_match f cs x = true -> Q x = true
  | Cat r1 r2 => demands f Q r1 \/ demands f Q r2
  | Alt r1 r2 => demands f Q r1 /\ demands f Q r2
  | NGroup r1 | Group r1 => demands f Q r1
  | _ => False
  end.

(** Group 1 of the pattern is a lazy repetition over characters of [P]. *)
Fixpoint group_over (f : flags) (P : ascii -> Prop) (r : regex) : Prop :=
  match r with
  | Group (PlusLazy cs) | Group (StarLazy cs) =>
      forall x, cset_match f cs x = true -> P x
  | Group _ => False
  | Cat r1 r2 | Alt r1 r2 => group_over f P r1 /\ group_over f P r2
  | NGroup r1 | Opt r1 | Ahead r1 => group_over f P r1
  | _ => True
  end.

(** The items the lines give: each line trimmed, kept when longer than
    five characters, its prefix removed, kept when something is left. *)
Definition line_items (lines : list str) : list str :=
  filter (fun item : str => truthy item)
    (map (fun line => drop_while prefix_char (strip line))
         (filter (fun line => 5 <? List.length (strip line)) lines)).

(** A hyphen or a digit: what every list pattern needs. *)
Definition bullet_or_digit (x : ascii) : bool := Ascii.eqb x "-" || isdigit x.

(** A value that comes from [text]: a string that is a contiguous part
    of it, or the list of items of such a part. *)
Definition value_from (self : ResponseParser.t) (text : str) (v : value) : Prop :=
  match v with
  | VStr c => infix c text
  | VList l => exists c, infix c text /\ l = _extract_list_items self c
  end.

(** One point for a field the validation report marks true. *)
Definition marked (report : dict bool) (k : str) : nat :=
  match dict_get report k with Some true => 1 | _ => 0 end.

End Further.
Import Further.

(** * Properties *)

(** ** Strings *)

Section StrFacts.

Lemma eqb_eq (a b : str) : Str.eqb a b = true <-> a = b.
Proof.
  revert b; induction a as [|x a IH]; intros [|y b]; simpl; split;
    try congruence; try reflexivity.
  - intros H. apply andb_prop in H as [H1 H2].
    apply Ascii.eqb_eq in H1. apply IH in H2. congruence.
  - intros H. injection H as -> ->.
    rewrite Ascii.eqb_refl. simpl. now apply IH.
Qed.

Lemma eqb_refl (a : str) : Str.eqb a a = true.
Proof. now apply eqb_eq. Qed.

Lemma eqb_neq (a b : str) : Str.eqb a b = false <-> a <> b.
Proof.
  split.
  - intros H E. apply eqb_eq in E. congruence.
  - intros H. destruct (Str.eqb a b) eqn:E; [|reflexivity].
    apply eqb_eq in E. contradiction.
Qed.

Lemma lstrip_whitespace (s : str) :
  Forall (fun c => isspace c = true) s -> lstrip s = [].
Proof.
  induction 1 as [|c s Hc _ IH]; simpl; [reflexivity|].
  now rewrite Hc.
Qed.

Lemma strip_whitespace (s : str) :
  Forall (fun c => isspace c = true) s -> strip s = [].
Proof.
  intros H. unfold strip, rstrip.
  rewrite (lstrip_whitespace (rev s)); [reflexivity|].
  now apply Forall_rev.
Qed.

Lemma lstrip_head (s : str) x t : lstrip s = x :: t -> isspace x = false.
Proof.
  induction s as [|c s IH]; simpl; [discriminate|].
  destruct (isspace c) eqn:E; [exact IH|].
  intros H. injection H as <- _. exact E.
Qed.

Lemma lstrip_suffix (s : str) : exists p, s = p ++ lstrip s.
Proof.
  induction s as [|c s [p IH]]; simpl.
  - now exists [].
  - destruct (isspace c); [|now exists []].
    exists (c :: p). simpl. now f_equal.
Qed.

Lemma strip_head (s : str) x t : strip s = x :: t -> isspace x = false.
Proof. apply lstrip_head. Qed.

Lemma strip_last (s : str) x t : strip s = t ++ [x] -> isspace x = false.
Proof.
  unfold strip. intros H.
  destruct (lstrip_suffix (rstrip s)) as [p Hp].
  rewrite H in Hp. unfold rstrip in Hp.
  apply (f_equal (@rev ascii)) in Hp.
  rewrite rev_involutive, !rev_app_distr in Hp. simpl in Hp.
  now apply lstrip_head in Hp.
Qed.

End StrFacts.

(** ** The matcher *)

Section ReFacts.

Variable f : flags.

Lemma exec_keeps_group (r : regex) : forall st st',
  In st' (exec f r st) -> snd st <> None -> snd st' <> None.
Proof.
  induction r as [ |cs|r1 IH1 r2 IH2|r1 IH1 r2 IH2|r1 IH1|r1 IH1|cs|cs|cs|cs|r1 IH1|r1 IH1| | ];
    intros [c g] st' Hin Hg; simpl in Hin.
  - destruct Hin as [<-|[]]. exact Hg.
  - destruct (rest c) as [|x t]; [contradiction|].
    destruct (cset_match f cs x); [|contradiction].
    destruct Hin as [<-|[]]. exact Hg.
  - apply in_flat_map in Hin as [mid [H1 H2]]. eauto.
  - apply in_app_or in Hin as [H|H]; eauto.
  - eauto.
  - apply in_app_or in Hin as [H|[<-|[]]]; eauto.
  - apply in_map_iff in Hin as [c' [<- _]]. exact Hg.
  - apply in_map_iff in Hin as [c' [<- _]]. exact Hg.
  - apply in_map_iff in Hin as [c' [<- _]]. exact Hg.
  - apply in_map_iff in Hin as [c' [<- _]]. exact Hg.
  - apply in_map_iff in Hin as [x [<- _]]. discriminate.
  - destruct (truthy _); [|contradiction]. destruct Hin as [<-|[]]. exact Hg.
  - destruct (at_bol f c); [|contradiction]. destruct Hin as [<-|[]]. exact Hg.
  - destruct (at_eol f c); [|contradiction]. destruct Hin as [<-|[]]. exact Hg.
Qed.

Lemma exec_binds_group (r : regex) : forall st st',
  binds_group r = true -> In st' (exec f r st) -> snd st' <> None.
Proof.
  induction r as [ |cs|r1 IH1 r2 IH2|r1 IH1 r2 IH2|r1 IH1|r1 IH1|cs|cs|cs|cs|r1 IH1|r1 IH1| | ];
    intros [c g] st' Hb Hin; simpl in Hb; try discriminate; simpl in Hin.
  - apply in_flat_map in Hin as [mid [H1 H2]].
    apply orb_prop in Hb as [Hb|Hb].
    + eapply exec_keeps_group; eauto.
    + eauto.
  - apply andb_prop in Hb as [Hb1 Hb2].
    apply in_app_or in Hin as [H|H]; eauto.
  - eauto.
  - apply in_map_iff in Hin as [x [<- _]]. discriminate.
Qed.

Lemma scan_from_group (r : regex) origin adv : forall s i pv m,
  binds_group r = true ->
  scan_from f r origin adv i pv s = Some m -> m_group1 m <> None.
Proof.
  induction s as [|x t IH]; intros i pv m Hb; simpl;
    match goal with |- context [filter ?p ?l] =>
      destruct (filter p l) as [|st l'] eqn:E end;
    try discriminate; eauto.
  all: intros H; injection H as <-; simpl;
    assert (Hin : In st (st :: l')) by (left; reflexivity);
    rewrite <- E in Hin; apply filter_In in Hin as [Hin _];
    eapply exec_binds_group; eauto.
Qed.

End ReFacts.

Lemma search_group (r : regex) text f m :
  binds_group r = true -> search r text f = Some m ->
  exists g, m_group1 m = Some g.
Proof.
  intros Hb H. apply scan_from_group in H; [|exact Hb].
  destruct (m_group1 m) as [g|]; [now exists g|contradiction].
Qed.

(** ** The scanner: positions only move forward, and the fuel of
    [finditer] is never exhausted *)

Section ScanFacts.

Variable f : flags.

Lemma after_refl c : after c c.
Proof. exists []. split; [reflexivity|simpl; lia]. Qed.

Lemma after_trans c1 c2 c3 : after c1 c2 -> after c2 c3 -> after c1 c3.
Proof.
  intros [p [H1 H2]] [q [H3 H4]]. exists (p ++ q). split.
  - now rewrite H1, H3, app_assoc.
  - rewrite length_app. lia.
Qed.

Lemma after_cons i pv x t c :
  after {| pos := S i; prev := Some x; rest := t |} c ->
  after {| pos := i; prev := pv; rest := x :: t |} c.
Proof.
  intros [p [H1 H2]]. simpl in *. exists (x :: p). simpl. split; [now rewrite H1|lia].
Qed.

Lemma star_greedy_after p : forall s i pv c,
  In c (star_greedy p i pv s) -> after {| pos := i; prev := pv; rest := s |} c.
Proof.
  induction s as [|x t IH]; intros i pv c; simpl.
  - intros [<-|[]]. apply after_refl.
  - destruct (p x).
    + intros H. apply in_app_or in H as [H|[<-|[]]].
      * apply after_cons. now apply IH.
      * apply after_refl.
    + intros [<-|[]]. apply after_refl.
Qed.

Lemma star_lazy_after p : forall s i pv c,
  In c (star_lazy p i pv s) -> after {| pos := i; prev := pv; rest := s |} c.
Proof.
  induction s as [|x t IH]; intros i pv c; simpl.
  - intros [<-|[]]. apply after_refl.
  - intros [<-|H]; [apply after_refl|].
    destruct (p x); [|contradiction].
    apply after_cons. now apply IH.
Qed.

Lemma plus_of_after star p c c' :
  (forall s i pv c, In c (star p i pv s) -> after {| pos := i; prev := pv; rest := s |} c) ->
  In c' (plus_of star p c) -> after c c'.
Proof.
  intros Hstar. unfold plus_of. destruct c as [i pv [|x t]]; simpl; [contradiction|].
  destruct (p x); [|contradiction].
  intros H. apply after_cons. now apply Hstar.
Qed.

Lemma exec_after (r : regex) : forall st st',
  In st' (exec f r st) -> after (fst st) (fst st').
Proof.
  induction r as [ |cs|r1 IH1 r2 IH2|r1 IH1 r2 IH2|r1 IH1|r1 IH1|cs|cs|cs|cs|r1 IH1|r1 IH1| | ];
    intros [c g] st' Hin; simpl in Hin; simpl fst.
  - destruct Hin as [<-|[]]. apply after_refl.
  - destruct c as [i pv [|x t]]; simpl in Hin; [contradiction|].
    destruct (cset_match f cs x); [|contradiction].
    destruct Hin as [<-|[]]. simpl. apply after_cons, after_refl.
  - apply in_flat_map in Hin as [mid [H1 H2]].
    eapply after_trans; [apply (IH1 _ _ H1)|apply (IH2 _ _ H2)].
  - apply in_app_or in Hin as [H|H]; [apply (IH1 _ _ H)|apply (IH2 _ _ H)].
  - apply (IH1 _ _ Hin).
  - apply in_app_or in Hin as [H|[<-|[]]]; [apply (IH1 _ _ H)|apply after_refl].
  - apply in_map_iff in Hin as [c' [<- H]]. destruct c. now apply star_greedy_after in H.
  - apply in_map_iff in Hin as [c' [<- H]].
    eapply plus_of_after; [apply star_greedy_after|exact H].
  - apply in_map_iff in Hin as [c' [<- H]]. destruct c. now apply star_lazy_after in H.
  - apply in_map_iff in Hin as [c' [<- H]].
    eapply plus_of_after; [apply star_lazy_after|exact H].
  - apply in_map_iff in Hin as [x [<- H]]. apply (IH1 _ _ H).
  - destruct (truthy _); [|contradiction]. destruct Hin as [<-|[]]. apply after_refl.
  - destruct (at_bol f c); [|contradiction]. destruct Hin as [<-|[]]. apply after_refl.
  - destruct (at_eol f c); [|contradiction]. destruct Hin as [<-|[]]. apply after_refl.
Qed.

Lemma scan_from_after (r : regex) origin adv : forall s i pv m,
  scan_from f r origin adv i pv s = Some m ->
  origin <= i ->
  after {| pos := i; prev := pv; rest := s |} (m_stop m)
  /\ i <= m_start m <= pos (m_stop m)
  /\ (adv = true -> pos (m_stop m) <> origin).
Proof.
  assert (Hhere : forall s i pv st l',
    filter (fun st : mstate => negb (adv && (pos (fst st) =? origin)))
           (exec f r ({| pos := i; prev := pv; rest := s |}, None)) = st :: l' ->
    after {| pos := i; prev := pv; rest := s |} (fst st)
    /\ (adv = true -> pos (fst st) <> origin)).
  { intros s i pv st l' E.
    assert (Hin : In st (st :: l')) by (left; reflexivity).
    rewrite <- E in Hin. apply filter_In in Hin as [Hin Hok]. split.
    - apply (exec_after _ _ _ Hin).
    - intros ->. simpl in Hok. apply negb_true_iff, Nat.eqb_neq in Hok. exact Hok. }
  induction s as [|x t IH]; intros i pv m; simpl;
    match goal with |- context [filter ?p ?l] =>
      destruct (filter p l) as [|st l'] eqn:E end; try discriminate.
  - intros H Ho. injection H as <-. simpl.
    destruct (Hhere _ _ _ _ _ E) as [Ha Hadv].
    split; [exact Ha|split; [|exact Hadv]].
    destruct Ha as [p [_ Hp]]. simpl in Hp. lia.
  - intros H Ho. destruct (IH _ _ _ H) as [Ha [Hb Hc]]; [lia|].
    split; [now apply after_cons|split; [lia|exact Hc]].
  - intros H Ho. injection H as <-. simpl.
    destruct (Hhere _ _ _ _ _ E) as [Ha Hadv].
    split; [exact Ha|split; [|exact Hadv]].
    destruct Ha as [p [_ Hp]]. simpl in Hp. lia.
Qed.

(** What is left to scan, counted so that every match lowers it. *)
Lemma matches_from_stable (r : regex) : forall n (adv : bool) (c : cursor),
  2 * List.length (rest c) + (if adv then 0 else 1) < n ->
  matches_from (S n) f r adv c = matches_from n f r adv c.
Proof.
  induction n as [|n IH]; intros adv c Hn; [lia|].
  change (matches_from (S (S n)) f r adv c) with
    (match scan_from f r (pos c) adv (pos c) (prev c) (rest c) with
     | None => []
     | Some m => m :: matches_from (S n) f r (pos (m_stop m) =? m_start m) (m_stop m)
     end).
  change (matches_from (S n) f r adv c) with
    (match scan_from f r (pos c) adv (pos c) (prev c) (rest c) with
     | None => []
     | Some m => m :: matches_from n f r (pos (m_stop m) =? m_start m) (m_stop m)
     end).
  destruct (scan_from f r (pos c) adv (pos c) (prev c) (rest c)) as [m|] eqn:E;
    [|reflexivity].
  f_equal. apply IH.
  destruct (scan_from_after _ _ _ _ _ _ _ E (le_n _)) as [[p [Hp1 Hp2]] [Hb Hc]].
  simpl in Hp1, Hp2. rewrite Hp1, length_app in Hn.
  destruct p as [|y p]; simpl in Hn, Hp2.
  - assert (Hs : pos (m_stop m) = m_start m) by lia.
    rewrite Hs, Nat.eqb_refl.
    destruct adv; [|lia]. exfalso. apply Hc; [reflexivity|lia].
  - destruct (pos (m_stop m) =? m_start m); lia.
Qed.

Lemma finditer_fuel (r : regex) (text : str) n :
  matches_from (n + (2 * List.length text + 2)) f r false (start_of text)
  = finditer r text f.
Proof.
  unfold finditer. induction n as [|n IH]; [reflexivity|].
  rewrite <- IH. apply matches_from_stable. simpl. lia.
Qed.

End ScanFacts.

(** ** Dictionaries *)

Section DictFacts.

Context {V : Type}.
Implicit Types (d : dict V) (k : str) (v : V).

Lemma eqb_sym (a b : str) : Str.eqb a b = Str.eqb b a.
Proof.
  destruct (Str.eqb b a) eqn:E.
  - apply eqb_eq in E. subst. apply eqb_refl.
  - apply eqb_neq in E. apply eqb_neq. congruence.
Qed.

Lemma keys_dict_set d k v : keys (dict_set d k v) = add_key (keys d) k.
Proof.
  unfold add_key, keys. induction d as [|[k' v'] d IH]; simpl; [reflexivity|].
  rewrite (eqb_sym k k'). destruct (Str.eqb k' k); simpl; [reflexivity|].
  rewrite IH. now destruct (existsb _ _).
Qed.

Lemma dict_get_set_same d k v : dict_get (dict_set d k v) k = Some v.
Proof.
  induction d as [|[k' v'] d IH]; simpl.
  - now rewrite eqb_refl.
  - destruct (Str.eqb k' k) eqn:E; simpl; now rewrite E.
Qed.

Lemma dict_get_set_other d k k' v :
  k' <> k -> dict_get (dict_set d k v) k' = dict_get d k'.
Proof.
  intros Hne. induction d as [|[k0 v0] d IH]; simpl.
  - apply eqb_neq in Hne. now rewrite eqb_sym, Hne.
  - destruct (Str.eqb k0 k) eqn:E; simpl; [|now rewrite IH].
    apply eqb_eq in E. subst k0.
    apply eqb_neq in Hne. now rewrite eqb_sym, Hne.
Qed.

Lemma dict_get_keys d k : In k (keys d) -> exists v, dict_get d k = Some v.
Proof.
  induction d as [|[k' v'] d IH]; simpl; [contradiction|].
  intros [->|H].
  - rewrite eqb_refl. eauto.
  - destruct (Str.eqb k' k); eauto.
Qed.

Lemma dict_get_in_keys d k v : dict_get d k = Some v -> In k (keys d).
Proof.
  induction d as [|[k' v'] d IH]; simpl; [discriminate|].
  destruct (Str.eqb k' k) eqn:E; [|auto].
  apply eqb_eq in E. auto.
Qed.

Lemma add_key_present (ks : list str) k : In k ks -> add_key ks k = ks.
Proof.
  intros H. unfold add_key.
  replace (existsb (Str.eqb k) ks) with true; [reflexivity|].
  symmetry. apply existsb_exists. exists k. split; [exact H|apply eqb_refl].
Qed.

End DictFacts.

(** ** Section extraction *)

Section ExtractFacts.

Variable self : ResponseParser.t.

Lemma strip_trimmed (s : str) : trimmed (strip s).
Proof.
  split; intros x t H.
  - eapply strip_head; eauto.
  - eapply strip_last; eauto.
Qed.

Lemma long_enough_spec (content : str) :
  long_enough content = true <-> 10 < List.length content.
Proof.
  unfold long_enough. rewrite andb_true_iff, Nat.ltb_lt.
  split; [tauto|]. intros H. split; [|exact H].
  destruct content; [simpl in H; lia|reflexivity].
Qed.

Lemma long_enough_section_text (g : str) :
  long_enough (strip g) = true -> section_text (strip g).
Proof.
  intros H. right. split; [now apply long_enough_spec|apply strip_trimmed].
Qed.

Lemma header_pattern_binds (header : string) : binds_group (header_pattern header) = true.
Proof.
  unfold header_pattern, seq. simpl.
  destruct (binds_group (lit header)); reflexivity.
Qed.

Lemma by_header_loop_ok (text : str) (hs : list string) :
  exists c, by_header_loop text hs = Ok c /\ section_text c.
Proof.
  induction hs as [|h hs IH]; simpl.
  - exists []. split; [reflexivity|now left].
  - destruct (search _ _ _) as [m|] eqn:Hs; [|exact IH].
    destruct (search_group _ _ _ _ (header_pattern_binds h) Hs) as [g Hg].
    rewrite Hg.
    destruct (long_enough (strip g)) eqn:Hl; [|exact IH].
    exists (strip g). split; [reflexivity|now apply long_enough_section_text].
Qed.

Lemma pattern_loop_section_text (text : str) (ps : list regex) c :
  pattern_loop text ps = Some c -> section_text c.
Proof.
  induction ps as [|p ps IH]; simpl; [discriminate|].
  destruct (search _ _ _) as [m|]; [|exact IH].
  destruct (m_group1 m) as [g|]; [|exact IH].
  destruct (long_enough (strip g)) eqn:Hl; [|exact IH].
  intros H. injection H as <-. now apply long_enough_section_text.
Qed.

Lemma _extract_section_ok (text : str) (ps : list regex) (name : str) :
  exists c, _extract_section self text ps name = Ok c /\ section_text c.
Proof.
  unfold _extract_section.
  destruct (pattern_loop text ps) as [c|] eqn:E.
  - exists c. split; [reflexivity|]. eapply pattern_loop_section_text; eauto.
  - apply by_header_loop_ok.
Qed.

Lemma all_section_text_set d k c :
  all_section_text d -> section_text c -> all_section_text (dict_set d k (VStr c)).
Proof.
  intros Hd Hc k' v. destruct (Str.eqb k' k) eqn:E.
  - apply eqb_eq in E. subst. rewrite dict_get_set_same.
    intros H. injection H as <-. eauto.
  - apply eqb_neq in E. rewrite dict_get_set_other by exact E. apply Hd.
Qed.

Lemma section_loop_ok (text : str) : forall items d,
  all_section_text d ->
  exists d', section_loop self text items d = Ok d'
             /\ keys d' = fold_left add_key (map fst items) (keys d)
             /\ all_section_text d'.
Proof.
  induction items as [|[name ps] items IH]; intros d Hd; simpl.
  - eauto.
  - destruct (_extract_section_ok text ps name) as [c [-> Hc]]. simpl.
    destruct (IH (dict_set d name (VStr c))) as [d' [H1 [H2 H3]]].
    + now apply all_section_text_set.
    + exists d'. repeat split; try assumption.
      rewrite H2, keys_dict_set. reflexivity.
Qed.

(** What [listify] leaves under its key: the empty string it found, or
    the list of items of the text it found. *)
Lemma listify_ok (d : dict value) (k : str) c :
  dict_get d k = Some (VStr c) ->
  exists d', listify self d k = Ok d'
             /\ keys d' = keys d
             /\ (forall k', k' <> k -> dict_get d' k' = dict_get d k')
             /\ dict_get d' k =
                  Some (if truthy c then VList (_extract_list_items self c) else VStr c).
Proof.
  intros H. unfold listify, get_truthy, dict_index. rewrite H. simpl.
  destruct (truthy c) eqn:Hc; simpl.
  - eexists. split; [reflexivity|]. repeat split.
    + rewrite keys_dict_set. apply add_key_present.
      eapply dict_get_in_keys; eauto.
    + intros k' Hk'. now apply dict_get_set_other.
    + apply dict_get_set_same.
  - exists d. repeat split; auto.
Qed.

End ExtractFacts.

(** ** The parsed record *)

Section ParseFacts.

Variable self : ResponseParser.t.
Hypothesis self_fields :
  fold_left add_key (map fst (section_patterns self)) [] = field_names.

Lemma in_field_names k : In k field_names ->
  k = py "summary" \/ k = py "market_analysis" \/ k = py "technical_details"
  \/ k = py "business_opportunities" \/ k = py "key_players" \/ k = py "trends".
Proof. intros H. repeat (destruct H as [<-|H]; [tauto|]). destruct H. Qed.

Lemma parse_well_formed_for (response : str) :
  exists d, parse_research_response self response = Ok d /\ well_formed d.
Proof.
  unfold parse_research_response.
  destruct (negb (truthy response) || Str.eqb (strip response) []).
  - eexists. split; [reflexivity|].
    split; [reflexivity|]. split.
    + repeat apply Forall_cons; try apply Forall_nil;
        eexists; (split; [reflexivity|now left]).
    + repeat apply Forall_cons; try apply Forall_nil;
        right; eexists; reflexivity.
  - generalize (_clean_response self response). intros text.
    destruct (section_loop_ok self text (section_patterns self) [])
      as [d0 [E0 [Hk Hv]]].
    { intros k v H. discriminate. }
    rewrite E0. clear E0. unfold bind at 1.
    simpl in Hk. rewrite self_fields in Hk.
    assert (Hget : forall k, In k field_names ->
                     exists c, dict_get d0 k = Some (VStr c) /\ section_text c).
    { intros k Hin. rewrite <- Hk in Hin.
      destruct (dict_get_keys _ _ Hin) as [v Hg].
      destruct (Hv _ _ Hg) as [c [-> Hc]]. eauto. }
    destruct (Hget (py "key_players")) as [c1 [G1 _]].
    { right; right; right; right; left; reflexivity. }
    destruct (listify_ok self d0 _ _ G1) as [d1 [E1 [K1 [O1 S1]]]].
    rewrite E1. clear E1. unfold bind at 1.
    destruct (Hget (py "trends")) as [c2 [G2 _]].
    { right; right; right; right; right; left; reflexivity. }
    rewrite <- (O1 (py "trends")) in G2 by (vm_compute; discriminate).
    destruct (listify_ok self d1 _ _ G2) as [d2 [E2 [K2 [O2 S2]]]].
    rewrite E2. clear E2. unfold bind at 1.
    exists d2. split; [reflexivity|].
    split; [congruence|]. split.
    + apply Forall_forall. intros k Hin.
      assert (Hf : In k field_names)
        by (repeat (destruct Hin as [<-|Hin]; [vm_compute; tauto|]); destruct Hin).
      rewrite O2, O1; [now apply Hget| |]; intros ->;
        repeat (destruct Hin as [Hin|Hin]; [vm_compute in Hin; discriminate|]);
        destruct Hin.
    + apply Forall_cons; [|apply Forall_cons; [|apply Forall_nil]].
      * rewrite O2 by (vm_compute; discriminate). rewrite S1.
        destruct c1; simpl; eauto.
      * rewrite S2. destruct c2; simpl; eauto.
Qed.

End ParseFacts.

Lemma init_fields :
  fold_left add_key (map fst (section_patterns __init__)) [] = field_names.
Proof. vm_compute. reflexivity. Qed.

Lemma parse_well_formed (response : str) :
  exists d, parse_research_response __init__ response = Ok d /\ well_formed d.
Proof. apply parse_well_formed_for. exact init_fields. Qed.

(** ** The patterns are the source's *)

Lemma section_patterns_source :
  map (fun kv => (fst kv, map to_source (snd kv))) (section_patterns __init__) =
  [ (py "summary",
     [ "(?:1\.\s*)?EXECUTIVE SUMMARY[:\n]*(.*?)(?=\n(?:2\.|MARKET ANALYSIS|$))";
       "(?:##\s*)?EXECUTIVE SUMMARY[:\n]*(.*?)(?=\n##|$)";
       "SUMMARY[:\n]*(.*?)(?=\n(?:MARKET|ANALYSIS|$))" ]);
    (py "market_analysis",
     [ "(?:2\.\s*)?MARKET ANALYSIS[:\n]*(.*?)(?=\n(?:3\.|TECHNICAL DETAILS|$))";
       "(?:##\s*)?MARKET ANALYSIS[:\n]*(.*?)(?=\n##|$)";
       "MARKET[:\n]*(.*?)(?=\n(?:TECHNICAL|DETAILS|$))" ]);
    (py "technical_details",
     [ "(?:3\.\s*)?TECHNICAL DETAILS[:\n]*(.*?)(?=\n(?:4\.|BUSINESS OPPORTUNITIES|$))";
       "(?:##\s*)?TECHNICAL DETAILS[:\n]*(.*?)(?=\n##|$)";
       "TECHNICAL[:\n]*(.*?)(?=\n(?:BUSINESS|OPPORTUNITIES|$))" ]);
    (py "business_opportunities",
     [ "(?:4\.\s*)?BUSINESS OPPORTUNITIES[:\n]*(.*?)(?=\n(?:5\.|KEY PLAYERS|$))";
       "(?:##\s*)?BUSINESS OPPORTUNITIES[:\n]*(.*?)(?=\n##|$)";
       "BUSINESS[:\n]*(.*?)(?=\n(?:KEY|PLAYERS|$))" ]);
    (py "key_players",
     [ "(?:5\.\s*)?KEY PLAYERS[:\n]*(.*?)(?=\n(?:6\.|TRENDS|$))";
       "(?:##\s*)?KEY PLAYERS[:\n]*(.*?)(?=\n##|$)";
       "KEY PLAYERS[:\n]*(.*?)(?=\n(?:TRENDS|$))" ]);
    (py "trends",
     [ "(?:6\.\s*)?TRENDS[:\n]*(.*?)(?=\n##|$)";
       "(?:##\s*)?TRENDS[:\n]*(.*?)(?=\n##|$)";
       "TRENDS[:\n]*(.*?)$" ]) ]%string.
Proof. vm_compute. reflexivity. Qed.

Lemma list_patterns_source :
  map to_source list_patterns =
  [ "[-]\s*(.+?)(?=\n[-]|\n\n|$)";
    "\d+\.\s*(.+?)(?=\n\d+\.|\n\n|$)";
    "^\s*[-]\s*(.+?)$";
    "^\s*\d+\.\s*(.+?)$" ]%string.
Proof. vm_compute. reflexivity. Qed.

Lemma header_pattern_source :
  map (fun kv => map (fun h => to_source (header_pattern h)) (snd kv)) headers =
  [ [ "EXECUTIVE SUMMARY[:\n]*(.*?)(?=\n(?:[A-Z\s]+:|$))";
      "SUMMARY[:\n]*(.*?)(?=\n(?:[A-Z\s]+:|$))" ];
    [ "MARKET ANALYSIS[:\n]*(.*?)(?=\n(?:[A-Z\s]+:|$))";
      "MARKET[:\n]*(.*?)(?=\n(?:[A-Z\s]+:|$))" ];
    [ "TECHNICAL DETAILS[:\n]*(.*?)(?=\n(?:[A-Z\s]+:|$))";
      "TECHNICAL[:\n]*(.*?)(?=\n(?:[A-Z\s]+:|$))" ];
    [ "BUSINESS OPPORTUNITIES[:\n]*(.*?)(?=\n(?:[A-Z\s]+:|$))";
      "BUSINESS[:\n]*(.*?)(?=\n(?:[A-Z\s]+:|$))" ];
    [ "KEY PLAYERS[:\n]*(.*?)(?=\n(?:[A-Z\s]+:|$))";
      "PLAYERS[:\n]*(.*?)(?=\n(?:[A-Z\s]+:|$))" ];
    [ "TRENDS[:\n]*(.*?)(?=\n(?:[A-Z\s]+:|$))" ] ]%string.
Proof. vm_compute. reflexivity. Qed.

Lemma other_patterns_source :
  to_source (seq [lit "\n"; Star CSpace; lit "\n"]) = "\n\s*\n"%string
  /\ to_source (seq [Bol; Plus (CClass [CChar "-"; CDigit; CChar "."; CSpace])])
     = "^[-\d\.\s]+"%string.
Proof. split; vm_compute; reflexivity. Qed.

(** ** The state a call leaves *)

Section SessionFacts.

Import Session.

Lemma logged_nil (w : world) : logged w [] = w.
Proof. destruct w. unfold logged. simpl. now rewrite app_nil_r. Qed.

Lemma logged_app (w : world) a b : logged (logged w a) b = logged w (a ++ b).
Proof. unfold logged. simpl. now rewrite app_assoc. Qed.

Lemma pattern_loop_sim (text name : str) : forall ps w,
  exists rs, Session.pattern_loop text ps name w
             = (Ok (ResponseParser.pattern_loop text ps), logged w rs).
Proof.
  induction ps as [|p ps IH]; intros w; simpl.
  - exists []. unfold ret. now rewrite logged_nil.
  - destruct (search _ _ _) as [m|]; [|apply IH].
    destruct (m_group1 m) as [g|].
    + destruct (long_enough (strip g)); [|apply IH].
      exists []. unfold ret. now rewrite logged_nil.
    + unfold bind, emit. destruct (IH (logged w [(WARNING, PatternFailedFor name AttributeError)]))
        as [rs E].
      fold (logged w [(WARNING, PatternFailedFor name AttributeError)]).
      rewrite E. eexists. now rewrite logged_app.
Qed.

Lemma _extract_section_sim (text : str) ps (name : str) (w : world) :
  exists rs, Session._extract_section text ps name w
             = (ResponseParser._extract_section (instance w) text ps name, logged w rs).
Proof.
  unfold Session._extract_section, ResponseParser._extract_section, bind.
  destruct (pattern_loop_sim text name ps w) as [rs ->]. exists rs.
  destruct (ResponseParser.pattern_loop text ps); reflexivity.
Qed.

Lemma section_loop_sim (text : str) : forall items d w,
  exists rs, Session.section_loop text items d w
             = (ResponseParser.section_loop (instance w) text items d, logged w rs).
Proof.
  induction items as [|[name ps] items IH]; intros d w; simpl.
  - exists []. unfold ret. now rewrite logged_nil.
  - unfold bind at 1. destruct (_extract_section_sim text ps name w) as [rs ->].
    destruct (ResponseParser._extract_section (instance w) text ps name) as [c|e];
      [|now exists rs].
    cbn [Py.bind]. unfold bind at 1.
    set (r := if truthy c then (INFO, Extracted name (List.length c))
              else (WARNING, FailedToExtract name)).
    assert (E : (if truthy c then emit INFO (Extracted name (List.length c))
                 else emit WARNING (FailedToExtract name)) (logged w rs)
                = (Ok tt, logged w (rs ++ [r]))).
    { subst r. destruct (truthy c); unfold emit; fold (logged (logged w rs));
        now rewrite <- logged_app. }
    rewrite E.
    destruct (IH (dict_set d name (VStr c)) (logged w (rs ++ [r]))) as [rs' E'].
    rewrite E'. eexists. now rewrite logged_app.
Qed.

Lemma listify_sim (d : dict value) (k : str) (w : world) :
  Session.listify d k w = (ResponseParser.listify (instance w) d k, w).
Proof.
  unfold Session.listify, ResponseParser.listify.
  destruct (get_truthy d k); [|reflexivity].
  unfold bind, lift. destruct (dict_index d k) as [[c|l]|e]; reflexivity.
Qed.

Lemma parse_sim (s : str) (w : world) :
  exists rs, rs <> []
             /\ Session.parse_research_response s w
                = (ResponseParser.parse_research_response (instance w) s, logged w rs).
Proof.
  unfold Session.parse_research_response, ResponseParser.parse_research_response.
  destruct (negb (truthy s) || Str.eqb (strip s) []).
  - exists [(WARNING, EmptyResponseReceived)]. split; [discriminate|reflexivity].
  - unfold bind at 1. unfold emit.
    fold (logged w [(INFO, ParsingResponseOfLength (List.length s))]).
    set (w1 := logged w [(INFO, ParsingResponseOfLength (List.length s))]).
    unfold bind at 1. unfold Session._clean_response at 1.
    unfold bind at 1. unfold get_self at 1. unfold ret at 1.
    unfold bind at 1. unfold get_self at 1.
    change (instance w1) with (instance w).
    generalize (ResponseParser._clean_response (instance w) s). intros text.
    unfold bind at 1.
    destruct (section_loop_sim text (section_patterns (instance w)) [] w1) as [rs ->].
    subst w1. rewrite logged_app.
    change (instance (logged w [(INFO, ParsingResponseOfLength (List.length s))]))
      with (instance w).
    set (rs1 := [(INFO, ParsingResponseOfLength (List.length s))] ++ rs).
    assert (Hne : rs1 <> []) by discriminate.
    destruct (ResponseParser.section_loop (instance w) text _ []) as [d0|e];
      [|exists rs1; split; [exact Hne|reflexivity]].
    cbn [Py.bind]. unfold bind at 1. rewrite listify_sim.
    change (instance (logged w rs1)) with (instance w).
    destruct (ResponseParser.listify (instance w) d0 (py "key_players")) as [d1|e];
      [|exists rs1; split; [exact Hne|reflexivity]].
    cbn [Py.bind]. unfold bind at 1. rewrite listify_sim.
    change (instance (logged w rs1)) with (instance w).
    destruct (ResponseParser.listify (instance w) d1 (py "trends")) as [d2|e];
      exists rs1; (split; [exact Hne|reflexivity]).
Qed.

Lemma invoke_logged (c : call) (w : world) : exists rs, snd (invoke c w) = logged w rs.
Proof.
  destruct c as [s|text|data]; unfold invoke, bind.
  - destruct (parse_sim s w) as [rs [_ ->]].
    exists rs. now destruct (ResponseParser.parse_research_response (instance w) s).
  - exists []. now rewrite logged_nil.
  - exists []. now rewrite logged_nil.
Qed.

Lemma run_logged : forall cs w, exists rs, snd (run cs w) = logged w rs.
Proof.
  induction cs as [|c cs IH]; intros w; simpl.
  - exists []. now rewrite logged_nil.
  - destruct (invoke_logged c w) as [rs E].
    destruct (invoke c w) as [r w']. simpl in E. subst w'.
    destruct (IH (logged w rs)) as [rs' E'].
    destruct (run cs (logged w rs)) as [l w'']. simpl in E'. subst w''.
    exists (rs ++ rs'). simpl. apply logged_app.
Qed.

End SessionFacts.

(** ** Validation *)

(** Reads a validation report at a key the validator has set. *)
Ltac read_report :=
  unfold validate_parsed_data, required_sections; cbn [fold_left];
  repeat (rewrite dict_get_set_same
          || rewrite dict_get_set_other by (vm_compute; discriminate)).

Lemma adequate_spec (data : dict value) (k : str) :
  adequate data k = true <->
  exists v, dict_get data k = Some v /\ 0 < value_len v /\ 50 < value_len v.
Proof.
  unfold adequate. destruct (dict_get data k) as [v|].
  - rewrite andb_true_iff, Nat.ltb_lt. split.
    + intros [_ H]. exists v. repeat split; [lia|exact H].
    + intros [v' [E [_ H]]]. injection E as <-. split; [|exact H].
      destruct v as [[|]|[|]]; simpl in *; try reflexivity; lia.
  - simpl. split; [discriminate|]. intros [v [E _]]. discriminate.
Qed.

Lemma get_truthy_spec (data : dict value) (k : str) :
  get_truthy data k = true <-> exists v, dict_get data k = Some v /\ 0 < value_len v.
Proof.
  unfold get_truthy. destruct (dict_get data k) as [v|].
  - split.
    + intros H. exists v. split; [reflexivity|].
      destruct v as [[|]|[|]]; simpl in *; try discriminate; lia.
    + intros [v' [E H]]. injection E as <-.
      destruct v as [[|]|[|]]; simpl in *; try reflexivity; lia.
  - split; [discriminate|]. intros [v [E _]]. discriminate.
Qed.

(** ** Removing duplicates *)

Section Unique.

Lemma filter_all {A} (l : list A) : filter (fun _ => true) l = l.
Proof. induction l as [|x l IH]; simpl; congruence. Qed.

Lemma filter_twice {A} (p q : A -> bool) (l : list A) :
  filter p (filter q l) = filter (fun y => q y && p y) l.
Proof.
  induction l as [|x l IH]; simpl; [reflexivity|].
  destruct (q x); simpl; [destruct (p x)|]; congruence.
Qed.

Lemma keys_fold_dict_set (items : list str) : forall d : dict unit,
  keys (fold_left (fun d k => dict_set d k tt) items d) = fold_left add_key items (keys d).
Proof.
  induction items as [|x t IH]; intros d; simpl; [reflexivity|].
  now rewrite IH, keys_dict_set.
Qed.

Lemma fold_add_key (items : list str) : forall ks,
  fold_left add_key items ks =
  ks ++ filter (fun y => negb (existsb (Str.eqb y) ks)) (first_seen items).
Proof.
  induction items as [|x t IH]; intros ks; simpl.
  - now rewrite app_nil_r.
  - rewrite IH, filter_twice. unfold add_key.
    destruct (existsb (Str.eqb x) ks) eqn:E; simpl.
    + f_equal. apply filter_ext. intros y.
      destruct (Str.eqb y x) eqn:Eyx; simpl; [|reflexivity].
      apply eqb_eq in Eyx. subst y. now rewrite E.
    + rewrite <- app_assoc. simpl. do 2 f_equal.
      apply filter_ext. intros y.
      rewrite existsb_app. simpl. rewrite orb_false_r, negb_orb.
      apply andb_comm.
Qed.

Lemma fromkeys_first_seen (items : list str) : keys (fromkeys items) = first_seen items.
Proof.
  unfold fromkeys. rewrite keys_fold_dict_set, fold_add_key. simpl.
  apply filter_all.
Qed.

Lemma first_seen_In (items : list str) x : In x (first_seen items) <-> In x items.
Proof.
  induction items as [|y t IH]; simpl; [tauto|].
  rewrite filter_In, IH. split.
  - tauto.
  - intros [->|H]; [now left|].
    destruct (Str.eqb x y) eqn:E.
    + apply eqb_eq in E. now left.
    + right. now split.
Qed.

Lemma first_seen_NoDup (items : list str) : NoDup (first_seen items).
Proof.
  induction items as [|y t IH]; simpl; constructor.
  - rewrite filter_In, eqb_refl. simpl. intros [_ H]. discriminate.
  - now apply NoDup_filter.
Qed.

Lemma firstn_NoDup {A} n (l : list A) : NoDup l -> NoDup (firstn n l).
Proof.
  intros H. rewrite <- (firstn_skipn n l) in H.
  eapply NoDup_app_remove_r; eauto.
Qed.

End Unique.

(** ** Bullet lists *)

(** Replaces a closed pattern by its value. *)
Ltac expand r := let v := eval vm_compute in r in change r with v.

Section Bullets.
Let f := MULTILINE_only.

Lemma exec_line_end_inside c g x t :
  rest c = x :: t -> x <> LF -> exec f line_end (c, g) = [].
Proof.
  destruct c as [i pv s]. simpl. intros -> Hx.
  apply Ascii.eqb_neq in Hx. change LF with "010"%char in Hx.
  expand line_end. cbn -[Ascii.eqb]. rewrite Hx. reflexivity.
Qed.

Lemma exec_line_end_break c g :
  line_break (rest c) -> exec f line_end (c, g) = [(c, g)].
Proof.
  intros Hb.
  assert (H : at_eol f c = true).
  { unfold at_eol. destruct Hb as [->|[t ->]]; reflexivity. }
  expand line_end. cbn [exec]. rewrite H.
  match goal with |- (if truthy (?a ++ ?b ++ _) then _ else _) = _ =>
    destruct a; [destruct b|]; reflexivity end.
Qed.

Lemma flat_map_map {A B C} (h : B -> list C) (k : A -> B) (l : list A) :
  flat_map h (map k l) = flat_map (fun x => h (k x)) l.
Proof. induction l as [|x l IH]; simpl; congruence. Qed.

Lemma lazy_to_line_break {A} (H : cursor -> list A) : forall w tl i pv,
  ~ In LF w -> line_break tl ->
  (forall c x t, rest c = x :: t -> x <> LF -> H c = []) ->
  flat_map H (star_lazy (cset_match f CDot) i pv (w ++ tl))
  = H {| pos := List.length w + i; prev := prev_after pv w; rest := tl |}.
Proof.
  induction w as [|x w IH]; intros tl i pv Hw Hb Hmid.
  - simpl app. destruct Hb as [->|[t ->]]; simpl; now rewrite app_nil_r.
  - assert (Hx : x <> LF) by (intros ->; apply Hw; now left).
    cbn [app star_lazy flat_map].
    rewrite (Hmid _ x (w ++ tl)) by reflexivity || exact Hx.
    cbn [cset_match DOTALL f MULTILINE_only orb].
    apply Ascii.eqb_neq in Hx. rewrite Hx. cbn [negb app].
    rewrite IH; [|intros Hin; apply Hw; now right|exact Hb|exact Hmid].
    cbn [List.length]. rewrite Nat.add_succ_r. reflexivity.
Qed.

Lemma exec_Cat r1 r2 st : exec f (Cat r1 r2) st = flat_map (exec f r2) (exec f r1 st).
Proof. now destruct st. Qed.

Lemma exec_Eps st : exec f Eps st = [st].
Proof. now destruct st. Qed.

Lemma exec_One cs i pv x t g :
  exec f (One cs) ({| pos := i; prev := pv; rest := x :: t |}, g)
  = if cset_match f cs x then [({| pos := S i; prev := Some x; rest := t |}, g)] else [].
Proof. reflexivity. Qed.

Lemma exec_Star cs c g :
  exec f (Star cs) (c, g)
  = map (fun c' => (c', g)) (star_greedy (cset_match f cs) (pos c) (prev c) (rest c)).
Proof. reflexivity. Qed.

Lemma exec_Group_PlusLazy cs c g :
  exec f (Group (PlusLazy cs)) (c, g)
  = map (fun c' => (c', Some (firstn (pos c' - pos c) (rest c))))
        (plus_of star_lazy (cset_match f cs) c).
Proof. simpl. now rewrite map_map. Qed.

Lemma firstn_length_app {A} (w tl : list A) : firstn (List.length w) (w ++ tl) = w.
Proof. induction w as [|x w IH]; simpl; [now destruct tl|congruence]. Qed.

Lemma valid_item_one_line (item : str) :
  valid_item item -> ~ In LF item /\ trimmed item.
Proof.
  intros [Hne [Hlf [Hhd Hlast]]]. split; [|split].
  - intros Hin.
    assert (E : existsb (Ascii.eqb LF) item = true)
      by (apply existsb_exists; exists LF; split; [exact Hin|apply Ascii.eqb_refl]).
    congruence.
  - intros x t ->. exact Hhd.
  - intros x t ->. now rewrite last_last in Hlast.
Qed.

Lemma exec_bullet_line (a : ascii) (w tl : str) i pv :
  isspace a = false -> ~ In LF (a :: w) -> line_break tl ->
  exists l,
    exec f bullet_pattern
      ({| pos := i; prev := pv; rest := "-"%char :: " "%char :: a :: w ++ tl |}, None)
    = ({| pos := List.length w + S (S (S i)); prev := prev_after (Some a) w; rest := tl |},
       Some (a :: w)) :: l.
Proof.
  intros Ha Hw Hb.
  assert (Han : (a =? LF)%char = false).
  { apply Ascii.eqb_neq. intros ->. apply Hw. now left. }
  unfold bullet_pattern, seq. cbn [fold_right].
  rewrite exec_Cat, exec_One.
  replace (cset_match f (CClass [CChar "-"]) "-") with true by reflexivity.
  cbn [flat_map]. rewrite app_nil_r.
  rewrite exec_Cat, exec_Star. cbn [pos prev rest star_greedy].
  replace (cset_match f CSpace " ") with true by reflexivity.
  change (cset_match f CSpace a) with (isspace a). rewrite Ha.
  cbn [app map flat_map].
  match goal with |- exists l, ?x ++ _ = _ => assert (E : x = 
     [({| pos := List.length w + S (S (S i)); prev := prev_after (Some a) w; rest := tl |},
       Some (a :: w))]) end.
  { rewrite exec_Cat, exec_Group_PlusLazy. unfold plus_of. cbn [rest pos].
    replace (cset_match f CDot a) with true
      by (cbn [cset_match DOTALL f MULTILINE_only orb]; now rewrite Han).
    rewrite flat_map_map, lazy_to_line_break.
    - rewrite exec_Cat, exec_line_end_break by exact Hb.
      cbn [flat_map pos]. rewrite exec_Eps, app_nil_r.
      replace (List.length w + S (S (S i)) - S (S i)) with (S (List.length w)) by lia.
      cbn [firstn]. now rewrite firstn_length_app.
    - intros Hin. apply Hw. now right.
    - exact Hb.
    - intros c x t Hc Hx. rewrite exec_Cat, (exec_line_end_inside _ _ x t); auto. }
  rewrite E. eexists. reflexivity.
Qed.

Lemma scan_bullet_line (a : ascii) (w tl : str) origin i pv :
  isspace a = false -> ~ In LF (a :: w) -> line_break tl ->
  scan_from f bullet_pattern origin false i pv ("-"%char :: " "%char :: a :: w ++ tl)
  = Some {| m_start := i;
            m_stop := {| pos := List.length w + S (S (S i));
                         prev := prev_after (Some a) w; rest := tl |};
            m_group1 := Some (a :: w) |}.
Proof.
  intros Ha Hw Hb.
  destruct (exec_bullet_line a w tl i pv Ha Hw Hb) as [l E].
  cbn [scan_from]. rewrite E. reflexivity.
Qed.

Lemma scan_line_feed (s : str) origin i pv :
  scan_from f bullet_pattern origin false i pv (LF :: s)
  = scan_from f bullet_pattern origin false (S i) (Some LF) s.
Proof. reflexivity. Qed.

Lemma scan_end origin i pv : scan_from f bullet_pattern origin false i pv [] = None.
Proof. reflexivity. Qed.

Lemma matches_bullets : forall items fuel c lead,
  Forall valid_item items ->
  lead = [] \/ lead = [LF] ->
  List.length items < fuel ->
  rest c = lead ++ join_lines (map bullet_line items) ->
  map m_group1 (matches_from fuel f bullet_pattern false c) = map Some items.
Proof.
  induction items as [|x t IH]; intros fuel [i pv s] lead Hv Hl Hf Hr;
    (destruct fuel as [|fuel]; [simpl in Hf; lia|]); cbn [rest] in Hr; subst s.
  - cbn [matches_from pos prev rest].
    destruct Hl as [->| ->]; reflexivity.
  - inversion Hv as [|? ? Hx Hvt]; subst.
    destruct (valid_item_one_line _ Hx) as [Hlf _].
    destruct Hx as [Hne [_ [Ha _]]].
    destruct x as [|a w]; [contradiction|]. cbn [hd] in Ha.
    set (tl := match t with [] => [] | _ :: _ => LF :: join_lines (map bullet_line t) end).
    assert (Hb : line_break tl) by (destruct t; [left|right; eexists]; reflexivity).
    assert (Ht : join_lines (map bullet_line ((a :: w) :: t))
                 = "-"%char :: " "%char :: a :: w ++ tl).
    { subst tl. destruct t; simpl; [now rewrite app_nil_r|reflexivity]. }
    match goal with |- context [lead ++ ?X] =>
      replace X with ("-"%char :: " "%char :: a :: w ++ tl) by (symmetry; exact Ht)
    end.
    clear Ht.
    assert (Hscan : exists j,
      scan_from f bullet_pattern i false i pv (lead ++ "-"%char :: " "%char :: a :: w ++ tl)
      = Some {| m_start := j;
                m_stop := {| pos := List.length w + S (S (S j));
                             prev := prev_after (Some a) w; rest := tl |};
                m_group1 := Some (a :: w) |}).
    { destruct Hl as [->| ->]; cbn [app]; eexists.
      - now apply scan_bullet_line.
      - rewrite scan_line_feed. now apply scan_bullet_line. }
    destruct Hscan as [j Hscan].
    cbn [matches_from pos prev rest]. rewrite Hscan. cbn [map m_group1 m_stop m_start pos].
    f_equal.
    replace (List.length w + S (S (S j)) =? j) with false
      by (symmetry; apply Nat.eqb_neq; lia).
    apply IH with (lead := match t with [] => [] | _ :: _ => [LF] end).
    + exact Hvt.
    + destruct t; auto.
    + simpl in Hf. lia.
    + subst tl. destruct t; reflexivity.
Qed.

Lemma findall_bullets (items : list str) :
  Forall valid_item items ->
  findall bullet_pattern (join_lines (map bullet_line items)) f = items.
Proof.
  intros Hv. unfold findall.
  rewrite <- (finditer_fuel f bullet_pattern _ (List.length items)).
  rewrite <- (map_map m_group1 (fun o => match o with Some g => g | None => [] end)).
  rewrite (matches_bullets items _ _ []); auto.
  - rewrite map_map. apply map_id.
  - lia.
Qed.

Lemma strip_of_trimmed (x : str) : trimmed x -> strip x = x.
Proof.
  intros [Hhd Hlast]. unfold strip, rstrip.
  destruct (rev x) as [|z r] eqn:E.
  - apply (f_equal (@rev ascii)) in E. rewrite rev_involutive in E. now subst.
  - apply (f_equal (@rev ascii)) in E. rewrite rev_involutive in E. simpl in E.
    simpl. rewrite (Hlast z (rev r) E). simpl. rewrite <- E.
    destruct x as [|a w]; [reflexivity|]. simpl. now rewrite (Hhd a w eq_refl).
Qed.

Lemma stripped_nonempty_valid (items : list str) :
  Forall valid_item items -> stripped_nonempty items = items.
Proof.
  unfold stripped_nonempty. induction 1 as [|x t Hx _ IH]; [reflexivity|].
  destruct (valid_item_one_line _ Hx) as [_ Ht]. destruct Hx as [Hne _].
  simpl. rewrite (strip_of_trimmed x Ht).
  destruct x; [contradiction|]. simpl. rewrite (strip_of_trimmed _ Ht). congruence.
Qed.

Lemma first_seen_distinct (items : list str) : NoDup items -> first_seen items = items.
Proof.
  induction 1 as [|x t Hx _ IH]; simpl; [reflexivity|].
  rewrite IH. f_equal.
  rewrite <- (filter_all t) at 2. apply filter_ext_in.
  intros y Hy. apply negb_true_iff, eqb_neq. intros ->. contradiction.
Qed.

Lemma collect_items_bullets (items : list str) :
  Forall valid_item items ->
  collect_items (join_lines (map bullet_line items)) = items.
Proof.
  intros Hv. destruct items as [|x t]; [reflexivity|].
  unfold collect_items.
  change list_patterns with (bullet_pattern :: tl list_patterns).
  cbn [list_pattern_loop]. fold f.
  rewrite (findall_bullets _ Hv). cbn [truthy].
  rewrite (stripped_nonempty_valid _ Hv). reflexivity.
Qed.

Lemma extract_bullets (self : ResponseParser.t) (items : list str) :
  Forall valid_item items -> NoDup items ->
  _extract_list_items self (join_lines (map bullet_line items)) = firstn 10 items.
Proof.
  intros Hv Hn. unfold _extract_list_items. cbv zeta.
  now rewrite collect_items_bullets, fromkeys_first_seen, first_seen_distinct.
Qed.

End Bullets.

(** ** The claims *)

(** Runs the parser on a closed input and checks what follows. *)
Ltac run_parser :=
  match goal with
  | |- exists d, ?p = Ok d /\ _ =>
      let v := eval vm_compute in p in
      match v with
      | Ok ?d => exists d; split; [vm_compute; reflexivity|]
      end
  end.

(** C1 on the code: on an input from which no section can be
    extracted, [key_players] and [trends] hold the empty string, not
    the empty list. *)
Theorem failed_list_fields_hold_empty_string :
  exists d, parse_research_response __init__ (py "Nothing to extract here.") = Ok d
            /\ dict_get d (py "key_players") = Some (VStr [])
            /\ dict_get d (py "trends") = Some (VStr [])
            /\ dict_get (_get_empty_result __init__) (py "key_players") = Some (VList [])
            /\ dict_get (_get_empty_result __init__) (py "trends") = Some (VList []).
Proof. run_parser. vm_compute. repeat split. Qed.

(** C2 as the claim puts it fails: on this input the second summary
    pattern captures a body of exactly ten characters, and the
    extractor does not return it. *)
Lemma ten_characters_rejected :
  let text := py "EXECUTIVE SUMMARY\n0123456789" in
  exists patterns pattern m g,
    dict_get (section_patterns __init__) (py "summary") = Some patterns
    /\ In pattern patterns
    /\ search pattern text DOTALL_IGNORECASE = Some m
    /\ m_group1 m = Some g
    /\ strip g = py "0123456789"
    /\ 10 <= List.length (strip g)
    /\ _extract_section __init__ text patterns (py "summary") = Ok []
    /\ _extract_section __init__ text [pattern] (py "summary") = Ok [].
Proof.
  cbv zeta.
  match eval vm_compute in (dict_get (section_patterns __init__) (py "summary")) with
  | Some ?ps => exists ps;
      match ps with
      | [_; ?p; _] => exists p;
          match eval vm_compute in
            (search p (py "EXECUTIVE SUMMARY\n0123456789") DOTALL_IGNORECASE) with
          | Some ?m => exists m
          end
      end
  end.
  exists (py "0123456789").
  repeat split; try (vm_compute; reflexivity);
    try (right; left; reflexivity); vm_compute; lia.
Qed.

(** C2, amended. A matcher whose captured, trimmed content is longer
    than ten characters gives the result; with ten characters or fewer
    the extractor goes on to the next strategy, and with none left it
    returns the empty string. *)
Theorem minimum_length_gate (text : str) (pattern : regex) (more : list regex)
  (name : str) (m : Match) (g : str) :
  search pattern text DOTALL_IGNORECASE = Some m ->
  m_group1 m = Some g ->
  (10 < List.length (strip g) ->
   _extract_section __init__ text (pattern :: more) name = Ok (strip g))
  /\ (List.length (strip g) <= 10 ->
      _extract_section __init__ text (pattern :: more) name
      = _extract_section __init__ text more name)
  /\ (forall header headers m' g',
        search (header_pattern header) text DOTALL_IGNORECASE = Some m' ->
        m_group1 m' = Some g' ->
        (10 < List.length (strip g') ->
         by_header_loop text (header :: headers) = Ok (strip g'))
        /\ (List.length (strip g') <= 10 ->
            by_header_loop text (header :: headers) = by_header_loop text headers))
  /\ by_header_loop text [] = Ok [].
Proof.
  intros Hs Hg. unfold _extract_section. simpl pattern_loop. rewrite Hs, Hg.
  split; [|split; [|split]].
  - intros H. apply long_enough_spec in H. now rewrite H.
  - intros H. destruct (long_enough (strip g)) eqn:E; [|reflexivity].
    apply long_enough_spec in E. lia.
  - intros header headers m' g' Hs' Hg'. simpl. rewrite Hs', Hg'. split.
    + intros H. apply long_enough_spec in H. now rewrite H.
    + intros H. destruct (long_enough (strip g')) eqn:E; [|reflexivity].
      apply long_enough_spec in E. lia.
  - reflexivity.
Qed.

Lemma minimum_length_gate_witness :
  _extract_section __init__ (py "TRENDS:\nAutomation everywhere")
    [seq [lit "TRENDS"; colons; body; Eol]] (py "trends")
  = Ok (strip (py "Automation everywhere")).
Proof.
  match eval vm_compute in
    (search (seq [lit "TRENDS"; colons; body; Eol])
            (py "TRENDS:\nAutomation everywhere") DOTALL_IGNORECASE) with
  | Some ?m =>
      apply (proj1 (minimum_length_gate
                      (py "TRENDS:\nAutomation everywhere")
                      (seq [lit "TRENDS"; colons; body; Eol]) []
                      (py "trends") m (py "Automation everywhere")
                      ltac:(vm_compute; reflexivity) ltac:(vm_compute; reflexivity)))
  end.
  vm_compute. lia.
Defined.

(** C3. The three inputs with a numbered header, a Markdown header and
    a header followed by a colon all give the summary
    "Foo bar baz qux quux.". *)
Theorem header_tolerance :
  Forall (fun response =>
            exists d, parse_research_response __init__ response = Ok d
                      /\ dict_get d (py "summary") = Some (VStr (py "Foo bar baz qux quux.")))
    [ py "1. EXECUTIVE SUMMARY\nFoo bar baz qux quux.";
      py "## EXECUTIVE SUMMARY\nFoo bar baz qux quux.";
      py "EXECUTIVE SUMMARY:\nFoo bar baz qux quux." ].
Proof.
  repeat apply Forall_cons; try apply Forall_nil;
    run_parser; vm_compute; reflexivity.
Qed.

(** C4. Whatever the input, the record has exactly the six keys
    summary, market_analysis, technical_details,
    business_opportunities, key_players and trends. *)
Theorem closed_key_invariant (response : str) :
  exists d, parse_research_response __init__ response = Ok d
            /\ keys d = [ py "summary"; py "market_analysis"; py "technical_details";
                          py "business_opportunities"; py "key_players"; py "trends" ].
Proof.
  destruct (parse_well_formed response) as [d [H [Hk _]]].
  exists d. split; [exact H|exact Hk].
Qed.

(** C5. An empty or whitespace-only input gives the record whose four
    string fields are "" and whose two list fields are []. *)
Theorem empty_input_law (response : str) :
  Forall (fun c => isspace c = true) response ->
  parse_research_response __init__ response =
  Ok [ (py "summary", VStr []); (py "market_analysis", VStr []);
       (py "technical_details", VStr []); (py "business_opportunities", VStr []);
       (py "key_players", VList []); (py "trends", VList []) ].
Proof.
  intros H. unfold parse_research_response.
  rewrite (strip_whitespace _ H).
  replace (Str.eqb [] []) with true by reflexivity.
  rewrite orb_true_r. reflexivity.
Qed.

Lemma empty_input_law_witness :
  parse_research_response __init__ (py "") = Ok (_get_empty_result __init__)
  /\ parse_research_response __init__ (py "   ") = Ok (_get_empty_result __init__).
Proof.
  split.
  - apply (empty_input_law (py "")). apply Forall_nil.
  - apply (empty_input_law (py "   ")).
    repeat apply Forall_cons; try apply Forall_nil; reflexivity.
Defined.

(** C6. [_extract_list_items] returns its items without duplicates, in
    first-seen order, and at most ten of them: the three lines
    "- Alpha", "- Beta", "- Alpha" give Alpha and Beta, and the bullet
    lines of distinct valid items give the first ten items, so that
    fifteen such lines give exactly ten. *)
Theorem list_items_unique_ordered_truncated :
  (forall text,
      _extract_list_items __init__ text = firstn 10 (first_seen (collect_items text))
      /\ NoDup (_extract_list_items __init__ text)
      /\ List.length (_extract_list_items __init__ text) <= 10)
  /\ _extract_list_items __init__ (py "- Alpha\n- Beta\n- Alpha") = [py "Alpha"; py "Beta"]
  /\ (forall items,
        Forall valid_item items -> NoDup items ->
        _extract_list_items __init__ (join_lines (map bullet_line items)) = firstn 10 items
        /\ (List.length items = 15 ->
            List.length (_extract_list_items __init__ (join_lines (map bullet_line items)))
            = 10)).
Proof.
  split; [|split].
  - intros text.
    assert (E : _extract_list_items __init__ text
                = firstn 10 (first_seen (collect_items text))).
    { unfold _extract_list_items. cbv zeta. now rewrite fromkeys_first_seen. }
    split; [exact E|]. rewrite E. split.
    + apply firstn_NoDup, first_seen_NoDup.
    + apply firstn_le_length.
  - vm_compute. reflexivity.
  - intros items Hv Hn. rewrite (extract_bullets __init__ items Hv Hn).
    split; [reflexivity|]. intros H. rewrite length_firstn, H. reflexivity.
Qed.

Lemma list_items_unique_ordered_truncated_witness :
  _extract_list_items __init__
    (py "- Item 01\n- Item 02\n- Item 03\n- Item 04\n- Item 05\n- Item 06\n- Item 07\n- Item 08\n- Item 09\n- Item 10\n- Item 11\n- Item 12\n- Item 13\n- Item 14\n- Item 15")
  = [ py "Item 01"; py "Item 02"; py "Item 03"; py "Item 04"; py "Item 05";
      py "Item 06"; py "Item 07"; py "Item 08"; py "Item 09"; py "Item 10" ].
Proof.
  apply (proj1 (proj2 (proj2 list_items_unique_ordered_truncated) fifteen_items
                  ltac:(repeat apply Forall_cons; try apply Forall_nil;
                        (split; [discriminate|repeat split; reflexivity]))
                  ltac:(repeat (apply NoDup_cons;
                                [vm_compute; intuition discriminate|]);
                        apply NoDup_nil))).
Defined.

(** C7. The validation report marks a string field true exactly when
    its value is non-empty and longer than 50, and a list field true
    exactly when its value is non-empty; a summary of 51 characters is
    adequate, one of 50 is not. *)
Theorem validation_thresholds :
  (forall data k,
      In k [ py "summary"; py "market_analysis"; py "technical_details";
             py "business_opportunities" ] ->
      exists b, dict_get (validate_parsed_data __init__ data) k = Some b
                /\ (b = true <->
                    exists v, dict_get data k = Some v
                              /\ 0 < value_len v /\ 50 < value_len v))
  /\ (forall data k,
      In k [ py "key_players"; py "trends" ] ->
      exists b, dict_get (validate_parsed_data __init__ data) k = Some b
                /\ (b = true <-> exists v, dict_get data k = Some v /\ 0 < value_len v))
  /\ (forall data s, dict_get data (py "summary") = Some (VStr s) ->
        (List.length s = 51 ->
         dict_get (validate_parsed_data __init__ data) (py "summary") = Some true)
        /\ (List.length s = 50 ->
            dict_get (validate_parsed_data __init__ data) (py "summary") = Some false)).
Proof.
  split; [|split].
  - intros data k Hin. exists (adequate data k). split; [|apply adequate_spec].
    repeat (destruct Hin as [<-|Hin]; [now read_report|]). destruct Hin.
  - intros data k Hin. exists (get_truthy data k). split; [|apply get_truthy_spec].
    repeat (destruct Hin as [<-|Hin]; [now read_report|]). destruct Hin.
  - intros data s Hs. split; intros Hl; read_report; f_equal;
      unfold adequate; rewrite Hs; simpl; rewrite Hl;
      destruct s; try discriminate; reflexivity.
Qed.

Lemma validation_thresholds_witness :
  dict_get (validate_parsed_data __init__ [(py "summary", VStr (repeat "x"%char 51))])
           (py "summary") = Some true
  /\ dict_get (validate_parsed_data __init__ [(py "summary", VStr (repeat "x"%char 50))])
              (py "summary") = Some false.
Proof.
  split.
  - apply (proj2 (proj2 validation_thresholds)
             [(py "summary", VStr (repeat "x"%char 51))] (repeat "x"%char 51));
      reflexivity.
  - apply (proj2 (proj2 validation_thresholds)
             [(py "summary", VStr (repeat "x"%char 50))] (repeat "x"%char 50));
      reflexivity.
Defined.

(** C8. On every input the parser returns a record; it raises nothing. *)
Theorem parse_total (response : str) :
  (exists d, parse_research_response __init__ response = Ok d)
  /\ (forall e, parse_research_response __init__ response <> Raise e).
Proof.
  destruct (parse_well_formed response) as [d [H _]].
  split; [now exists d|]. intros e. rewrite H. discriminate.
Qed.

(** C9. [parse_research_response] is deterministic and stateless.  In
    the model where a call sees and changes the instance and the log,
    whatever the log holds and whatever calls come before a call on an
    input and between it and a second call on that input, both calls
    return the same result, the one the input determines; the
    instance is as [__init__] left it, and the only state that a call
    changes is the log, to which it adds records. *)
Theorem parse_deterministic_stateless (s : str) (before between : list Session.call)
  (log0 : list (Session.level * Session.message)) :
  let w1 := snd (Session.run before (Session.new log0)) in
  let first := Session.parse_research_response s w1 in
  let w2 := snd (Session.run between (snd first)) in
  let second := Session.parse_research_response s w2 in
  fst first = fst second
  /\ fst first = ResponseParser.parse_research_response __init__ s
  /\ Session.instance (snd second) = __init__
  /\ (exists records, records <> []
                      /\ Session.log (snd first) = Session.log w1 ++ records)
  /\ (exists records, records <> []
                      /\ Session.log (snd second) = Session.log w2 ++ records).
Proof.
  cbv zeta.
  destruct (run_logged before (Session.new log0)) as [r0 ->].
  set (w1 := Session.logged (Session.new log0) r0).
  destruct (parse_sim s w1) as [r1 [H1 ->]].
  cbn [fst snd].
  destruct (run_logged between (Session.logged w1 r1)) as [r2 ->].
  set (w2 := Session.logged (Session.logged w1 r1) r2).
  destruct (parse_sim s w2) as [r3 [H3 ->]].
  cbn [fst snd].
  repeat split; try reflexivity.
  - exists r1. split; [exact H1|reflexivity].
  - exists r3. split; [exact H3|reflexivity].
Qed.

(** C10. Each of the four string fields of the record is the empty
    string or a string of more than ten characters with no white
    space at either end. *)
Theorem string_fields_trimmed_or_empty (response : str) :
  exists d, parse_research_response __init__ response = Ok d
            /\ Forall (fun k => exists c, dict_get d k = Some (VStr c)
                                 /\ (c = [] \/ (10 < List.length c /\ trimmed c)))
                 [ py "summary"; py "market_analysis"; py "technical_details";
                   py "business_opportunities" ].
Proof.
  destruct (parse_well_formed response) as [d [H [_ [Hs _]]]].
  exists d. split; [exact H|exact Hs].
Qed.

(** * Further properties *)

(** ** The prefix of a line *)

Section PrefixFacts.

Lemma drop_while_ext (p q : ascii -> bool) (s : str) :
  (forall x, p x = q x) -> drop_while p s = drop_while q s.
Proof.
  intros H. induction s as [|x t IH]; simpl; [reflexivity|].
  rewrite <- H. now destruct (p x).
Qed.

Lemma drop_while_suffix (p : ascii -> bool) (s : str) :
  exists w, s = w ++ drop_while p s /\ Forall (fun x => p x = true) w.
Proof.
  induction s as [|x t [w [E Hw]]]; simpl.
  - exists []. now split.
  - destruct (p x) eqn:Hx.
    + exists (x :: w). split; [simpl; now f_equal|now constructor].
    + exists []. now split.
Qed.

Lemma drop_while_head (p : ascii -> bool) (s : str) x t :
  drop_while p s = x :: t -> p x = false.
Proof.
  induction s as [|y s IH]; simpl; [discriminate|].
  destruct (p y) eqn:E; [exact IH|].
  intros H. injection H as <- _. exact E.
Qed.

(** The first position that a greedy star reaches. *)
Lemma star_greedy_head (p : ascii -> bool) : forall s i pv,
  exists c l, star_greedy p i pv s = c :: l
              /\ rest c = drop_while p s /\ i <= pos c
              /\ (pv <> None -> prev c <> None).
Proof.
  induction s as [|x t IH]; intros i pv; simpl.
  - eexists _, _. split; [reflexivity|]. simpl. auto.
  - destruct (p x).
    + destruct (IH (S i) (Some x)) as [c [l [E [Hr [Hp Hv]]]]].
      rewrite E. exists c, (l ++ [{| pos := i; prev := pv; rest := x :: t |}]).
      split; [reflexivity|]. repeat split; [exact Hr|lia|].
      intros _. apply Hv. discriminate.
    + eexists _, _. split; [reflexivity|]. simpl. auto.
Qed.

Lemma exec_Cat' f r1 r2 st : exec f (Cat r1 r2) st = flat_map (exec f r2) (exec f r1 st).
Proof. now destruct st. Qed.

(** Without [re.MULTILINE] a pattern that starts with [^] matches at
    the start of the subject only. *)
Lemma scan_bol_later (r : regex) origin adv : forall s i y,
  scan_from no_flags (Cat Bol r) origin adv i (Some y) s = None.
Proof.
  induction s as [|x t IH]; intros i y; simpl; [reflexivity|]. apply IH.
Qed.

(** X1. Removing a line's prefix with [re.sub] drops the longest run of
    hyphens, digits, dots and white space at the start of the line and
    nothing else. *)
Theorem strip_prefix_drop (line : str) :
  strip_prefix line = drop_while prefix_char line.
Proof.
  unfold strip_prefix, sub, finditer.
  set (cls := CClass [CChar "-"; CDigit; CChar "."; CSpace]).
  assert (Hp : forall x, cset_match no_flags cls x = prefix_char x).
  { intros x. unfold prefix_char. simpl. now rewrite orb_false_r, !orb_assoc. }
  rewrite <- (drop_while_ext _ _ line Hp).
  destruct line as [|x t]; [reflexivity|].
  replace (2 * List.length (x :: t) + 2) with (S (S (2 * List.length t + 2)))
    by (simpl; lia).
  unfold seq, start_of. cbn [fold_right].
  cbn [matches_from]. cbn [pos prev rest]. cbn [scan_from].
  cbn [exec at_bol prev flat_map plus_of rest pos app]. rewrite !app_nil_r.
  destruct (cset_match no_flags cls x) eqn:Hx; cbn [drop_while]; rewrite Hx.
  - destruct (star_greedy_head (cset_match no_flags cls) t 1 (Some x))
      as [c [l [E [Hr [Hpos Hpv]]]]].
    rewrite E. cbn [map flat_map app filter andb negb fst snd].
    cbn [m_stop m_start].
    replace (pos c =? 0) with false by (symmetry; apply Nat.eqb_neq; lia).
    destruct c as [j [y|] s]; [|exfalso; now apply Hpv].
    cbn [pos prev rest]. rewrite scan_bol_later.
    cbn [sub_build m_start m_stop pos rest firstn app]. simpl in Hr. exact Hr.
  - cbn [map flat_map filter]. rewrite scan_bol_later. reflexivity.
Qed.

End PrefixFacts.

Lemma flat_map_nil_all {A B} (h : A -> list B) (l : list A) :
  (forall x, In x l -> h x = []) -> flat_map h l = [].
Proof.
  induction l as [|x l IH]; intros H; simpl; [reflexivity|].
  rewrite (H x) by now left. apply IH. intros y Hy. apply H. now right.
Qed.

Section CaptureFacts.

Variable f : flags.

Lemma star_lazy_consumed (p : ascii -> bool) : forall s i pv c,
  In c (star_lazy p i pv s) ->
  exists w, s = w ++ rest c /\ pos c = i + List.length w
            /\ Forall (fun x => p x = true) w.
Proof.
  induction s as [|x t IH]; intros i pv c; simpl.
  - intros [<-|[]]. exists []. simpl. auto.
  - intros [<-|H]; [exists []; simpl; auto|].
    destruct (p x) eqn:Hx; [|contradiction].
    destruct (IH _ _ _ H) as [w [E [Hp Hw]]].
    exists (x :: w). simpl. repeat split; [now f_equal|lia|now constructor].
Qed.

Lemma plus_lazy_consumed (p : ascii -> bool) c c' :
  In c' (plus_of star_lazy p c) ->
  exists w, rest c = w ++ rest c' /\ pos c' = pos c + List.length w
            /\ Forall (fun x => p x = true) w.
Proof.
  unfold plus_of. destruct c as [i pv [|x t]]; simpl; [contradiction|].
  destruct (p x) eqn:Hx; [|contradiction].
  intros H. destruct (star_lazy_consumed _ _ _ _ _ H) as [w [E [Hp Hw]]].
  exists (x :: w). simpl. repeat split; [now f_equal|lia|now constructor].
Qed.

Lemma firstn_consumed {A} (w tl : list A) i :
  firstn (i + List.length w - i) (w ++ tl) = w.
Proof.
  replace (i + List.length w - i) with (List.length w) by lia.
  induction w as [|x w IH]; simpl; [now destruct tl|congruence].
Qed.

Lemma exec_group_over (P : ascii -> Prop) (r : regex) : forall st st',
  group_over f P r ->
  In st' (exec f r st) ->
  (forall g, snd st = Some g -> Forall P g) ->
  forall g, snd st' = Some g -> Forall P g.
Proof.
  induction r as [ |cs|r1 IH1 r2 IH2|r1 IH1 r2 IH2|r1 IH1|r1 IH1|cs|cs|cs|cs|r1 IH1|r1 IH1| | ];
    intros [c g0] st' Hg Hin H0; simpl in Hin.
  - destruct Hin as [<-|[]]. exact H0.
  - destruct (rest c) as [|x t]; [contradiction|].
    destruct (cset_match f cs x); [|contradiction].
    destruct Hin as [<-|[]]. exact H0.
  - destruct Hg as [Hg1 Hg2].
    apply in_flat_map in Hin as [mid [H1 H2]]. eauto.
  - destruct Hg as [Hg1 Hg2].
    apply in_app_or in Hin as [H|H]; eauto.
  - eauto.
  - apply in_app_or in Hin as [H|[<-|[]]]; eauto.
  - apply in_map_iff in Hin as [c' [<- _]]. exact H0.
  - apply in_map_iff in Hin as [c' [<- _]]. exact H0.
  - apply in_map_iff in Hin as [c' [<- _]]. exact H0.
  - apply in_map_iff in Hin as [c' [<- _]]. exact H0.
  - apply in_map_iff in Hin as [x [<- Hx]]. simpl.
    intros g E. injection E as <-.
    destruct r1; simpl in Hg; try contradiction; simpl in Hx;
      apply in_map_iff in Hx as [c' [<- Hc]]; simpl.
    + destruct c as [i pv s]. apply star_lazy_consumed in Hc as [w [E [Hp Hw]]].
      simpl in *. subst s. rewrite Hp, firstn_consumed.
      eapply Forall_impl; [|exact Hw]. exact Hg.
    + apply plus_lazy_consumed in Hc as [w [E [Hp Hw]]].
      rewrite E, Hp, firstn_consumed.
      eapply Forall_impl; [|exact Hw]. exact Hg.
  - destruct (truthy _); [|contradiction]. destruct Hin as [<-|[]]. exact H0.
  - destruct (at_bol f c); [|contradiction]. destruct Hin as [<-|[]]. exact H0.
  - destruct (at_eol f c); [|contradiction]. destruct Hin as [<-|[]]. exact H0.
Qed.

Lemma scan_from_group_over (P : ascii -> Prop) (r : regex) origin adv :
  group_over f P r -> forall s i pv m g,
  scan_from f r origin adv i pv s = Some m -> m_group1 m = Some g -> Forall P g.
Proof.
  intros Hg. induction s as [|x t IH]; intros i pv m g; simpl;
    match goal with |- context [filter ?p ?l] =>
      destruct (filter p l) as [|st l'] eqn:E end;
    try discriminate; eauto.
  all: intros H; injection H as <-; simpl;
    assert (Hin : In st (st :: l')) by (left; reflexivity);
    rewrite <- E in Hin; apply filter_In in Hin as [Hin _];
    intros Hs; eapply exec_group_over; eauto; simpl; discriminate.
Qed.

Lemma matches_from_group_over (P : ascii -> Prop) (r : regex) :
  group_over f P r -> forall fuel adv c m g,
  In m (matches_from fuel f r adv c) -> m_group1 m = Some g -> Forall P g.
Proof.
  intros Hg. induction fuel as [|fuel IH]; intros adv c m g; simpl; [contradiction|].
  destruct (scan_from _ _ _ _ _ _ _) as [m0|] eqn:E; [|contradiction].
  intros [<-|H]; [|eauto].
  eapply scan_from_group_over; eauto.
Qed.

Lemma findall_group_over (P : ascii -> Prop) (r : regex) text g :
  group_over f P r -> In g (findall r text f) -> Forall P g.
Proof.
  intros Hg H. unfold findall in H. apply in_map_iff in H as [m [<- Hm]].
  destruct (m_group1 m) as [g'|] eqn:E; [|constructor].
  eapply matches_from_group_over; eauto.
Qed.

(** The group of a match is a contiguous part of the subject. *)
Lemma infix_refl_nil (text : str) : infix [] text.
Proof. exists [], text. reflexivity. Qed.

Lemma infix_app (g a text : str) : infix g text -> infix g (a ++ text).
Proof.
  intros [u [v ->]]. exists (a ++ u), v. now rewrite <- app_assoc.
Qed.

Lemma infix_trans (g h text : str) : infix g h -> infix h text -> infix g text.
Proof.
  intros [a [b ->]] [u [v ->]]. exists (u ++ a), (b ++ v).
  now rewrite <- !app_assoc.
Qed.

Lemma exec_group_infix (r : regex) : forall st st',
  In st' (exec f r st) ->
  snd st' = snd st \/ exists g, snd st' = Some g /\ infix g (rest (fst st)).
Proof.
  induction r as [ |cs|r1 IH1 r2 IH2|r1 IH1 r2 IH2|r1 IH1|r1 IH1|cs|cs|cs|cs|r1 IH1|r1 IH1| | ];
    intros [c g0] st' Hin; simpl in Hin; simpl snd; simpl fst.
  - destruct Hin as [<-|[]]. now left.
  - destruct (rest c) as [|x t]; [contradiction|].
    destruct (cset_match f cs x); [|contradiction].
    destruct Hin as [<-|[]]. now left.
  - apply in_flat_map in Hin as [mid [H1 H2]].
    destruct (IH2 _ _ H2) as [E2|[g [E2 I2]]].
    + rewrite E2. apply (IH1 _ _ H1).
    + right. exists g. split; [exact E2|].
      destruct (exec_after f _ _ _ H1) as [p [Hp _]]. simpl in Hp.
      rewrite Hp. now apply infix_app.
  - apply in_app_or in Hin as [H|H]; [apply (IH1 _ _ H)|apply (IH2 _ _ H)].
  - apply (IH1 _ _ Hin).
  - apply in_app_or in Hin as [H|[<-|[]]]; [apply (IH1 _ _ H)|now left].
  - apply in_map_iff in Hin as [c' [<- _]]. now left.
  - apply in_map_iff in Hin as [c' [<- _]]. now left.
  - apply in_map_iff in Hin as [c' [<- _]]. now left.
  - apply in_map_iff in Hin as [c' [<- _]]. now left.
  - apply in_map_iff in Hin as [x [<- Hx]]. right. eexists. split; [reflexivity|].
    destruct (exec_after f _ _ _ Hx) as [p [Hp Hpos]]. simpl in Hp, Hpos.
    rewrite Hp, Hpos, firstn_consumed. exists [], (rest (fst x)). reflexivity.
  - destruct (truthy _); [|contradiction]. destruct Hin as [<-|[]]. now left.
  - destruct (at_bol f c); [|contradiction]. destruct Hin as [<-|[]]. now left.
  - destruct (at_eol f c); [|contradiction]. destruct Hin as [<-|[]]. now left.
Qed.

Lemma scan_from_infix (r : regex) origin adv : forall s i pv m g,
  scan_from f r origin adv i pv s = Some m -> m_group1 m = Some g -> infix g s.
Proof.
  induction s as [|x t IH]; intros i pv m g; simpl;
    match goal with |- context [filter ?p ?l] =>
      destruct (filter p l) as [|st l'] eqn:E end;
    try discriminate.
  2: { intros H Hg. apply (infix_app g [x] t). eapply IH; eauto. }
  all: intros H; injection H as <-; simpl;
    assert (Hin : In st (st :: l')) by (left; reflexivity);
    rewrite <- E in Hin; apply filter_In in Hin as [Hin _];
    intros Hs; apply exec_group_infix in Hin as [E1|[g' [E1 I1]]];
    simpl in E1; [congruence|]; rewrite Hs in E1; injection E1 as <-; exact I1.
Qed.

Lemma search_infix (r : regex) text m g :
  search r text f = Some m -> m_group1 m = Some g -> infix g text.
Proof. apply scan_from_infix. Qed.

(** A pattern that demands a character the subject lacks has no match. *)
Lemma exec_demands (Q : ascii -> bool) (r : regex) : forall st,
  demands f Q r -> Forall (fun x => Q x = false) (rest (fst st)) ->
  exec f r st = [].
Proof.
  assert (Hone : forall cs x, (forall y, cset_match f cs y = true -> Q y = true) ->
                              Q x = false -> cset_match f cs x = false).
  { intros cs x H Hx. destruct (cset_match f cs x) eqn:E; [|reflexivity].
    apply H in E. congruence. }
  induction r as [ |cs|r1 IH1 r2 IH2|r1 IH1 r2 IH2|r1 IH1|r1 IH1|cs|cs|cs|cs|r1 IH1|r1 IH1| | ];
    intros [c g0] Hd Hq; simpl in Hd; try contradiction; simpl.
  - destruct (rest c) as [|x t] eqn:Er; [reflexivity|].
    simpl in Hq. rewrite Er in Hq. inversion Hq; subst.
    now rewrite (Hone cs x Hd).
  - destruct Hd as [Hd|Hd].
    + now rewrite (IH1 _ Hd Hq).
    + apply flat_map_nil_all. intros mid Hmid. apply IH2; [exact Hd|].
      destruct (exec_after f _ _ _ Hmid) as [p [Hp _]]. simpl in Hp.
      simpl in Hq. rewrite Hp in Hq. apply Forall_app in Hq. tauto.
  - destruct Hd as [Hd1 Hd2]. now rewrite IH1, IH2.
  - now apply IH1.
  - unfold plus_of. destruct (rest c) as [|x t] eqn:Er; [reflexivity|].
    simpl in Hq. rewrite Er in Hq. inversion Hq; subst.
    now rewrite (Hone cs x Hd).
  - unfold plus_of. destruct (rest c) as [|x t] eqn:Er; [reflexivity|].
    simpl in Hq. rewrite Er in Hq. inversion Hq; subst.
    now rewrite (Hone cs x Hd).
  - now rewrite IH1.
Qed.

End CaptureFacts.

(** ** The items of a list *)

Section ListFacts.

Lemma lstrip_incl (s : str) x : In x (lstrip s) -> In x s.
Proof.
  destruct (lstrip_suffix s) as [p E]. intros H. rewrite E.
  apply in_or_app. now right.
Qed.

Lemma strip_incl (s : str) x : In x (strip s) -> In x s.
Proof.
  unfold strip, rstrip. intros H. apply lstrip_incl in H.
  apply in_rev in H. apply lstrip_incl in H. now apply in_rev.
Qed.

Lemma split_lines_acc_single : forall s cur,
  ~ In LF cur -> Forall (fun line => ~ In LF line) (split_lines_acc cur s).
Proof.
  induction s as [|c t IH]; intros cur Hc; simpl.
  - constructor; [|constructor]. intros H. apply Hc. now apply in_rev.
  - destruct (Ascii.eqb c LF) eqn:E.
    + constructor; [intros H; apply Hc; now apply in_rev|]. apply IH. intros [].
    + apply IH. intros [->|H]; [|contradiction].
      now rewrite Ascii.eqb_refl in E.
Qed.

Lemma split_lines_single (s : str) : Forall (fun line => ~ In LF line) (split_lines s).
Proof. apply split_lines_acc_single. intros []. Qed.

Lemma truthy_nonempty {A} (l : list A) : truthy l = true <-> l <> [].
Proof. destruct l; simpl; split; congruence. Qed.

Lemma line_loop_items (lines : list str) : line_loop lines = line_items lines.
Proof.
  unfold line_items. induction lines as [|line more IH]; [reflexivity|].
  cbn [line_loop filter map]. rewrite strip_prefix_drop.
  destruct (5 <? List.length (strip line)) eqn:E5.
  - replace (truthy (strip line)) with true
      by (apply Nat.ltb_lt in E5; destruct (strip line); [simpl in E5; lia|reflexivity]).
    cbn [andb map filter]. rewrite IH. reflexivity.
  - rewrite andb_false_r. exact IH.
Qed.

Lemma line_items_good (lines : list str) item :
  Forall (fun line => ~ In LF line) lines ->
  In item (line_items lines) -> item <> [] /\ ~ In LF item /\ trimmed item.
Proof.
  intros Hl H. unfold line_items in H.
  apply filter_In in H as [H Ht]. apply in_map_iff in H as [line [<- H]].
  apply filter_In in H as [H _].
  destruct (drop_while_suffix prefix_char (strip line)) as [w [E _]].
  split; [now apply truthy_nonempty|]. split.
  - intros Hin. rewrite Forall_forall in Hl. apply (Hl line H).
    apply strip_incl. rewrite E. apply in_or_app. now right.
  - split.
    + intros x t Ex. apply drop_while_head in Ex.
      unfold prefix_char in Ex. apply orb_false_iff in Ex. tauto.
    + intros x t Ex. rewrite Ex, app_assoc in E. now apply strip_last in E.
Qed.

Lemma list_pattern_loop_good (text : str) item : forall patterns,
  Forall (group_over MULTILINE_only (fun x => x <> LF)) patterns ->
  In item (list_pattern_loop text patterns) ->
  item <> [] /\ ~ In LF item /\ trimmed item.
Proof.
  induction 1 as [|pattern more Hp _ IH]; simpl; [contradiction|].
  destruct (truthy (findall pattern text MULTILINE_only)); [|exact IH].
  unfold stripped_nonempty. intros H.
  apply in_map_iff in H as [g [<- H]]. apply filter_In in H as [H Ht].
  split; [now apply truthy_nonempty|]. split; [|apply strip_trimmed].
  intros Hin. apply strip_incl in Hin.
  pose proof (findall_group_over _ _ _ _ _ Hp H) as HF.
  rewrite Forall_forall in HF. now apply (HF LF).
Qed.

Lemma list_patterns_single_line :
  Forall (group_over MULTILINE_only (fun x => x <> LF)) list_patterns.
Proof.
  assert (H : forall x, cset_match MULTILINE_only CDot x = true -> x <> LF).
  { intros x Hx ->. discriminate. }
  unfold list_patterns, bullet_pattern, line_end.
  repeat apply Forall_cons; try apply Forall_nil; simpl; intuition.
Qed.

Lemma collect_items_good (text : str) item :
  In item (collect_items text) -> item <> [] /\ ~ In LF item /\ trimmed item.
Proof.
  unfold collect_items.
  destruct (negb (truthy (list_pattern_loop text list_patterns))) eqn:E.
  - intros H. apply in_app_or in H as [H|H].
    + apply (list_pattern_loop_good _ _ _ list_patterns_single_line H).
    + rewrite line_loop_items in H.
      apply (line_items_good _ _ (split_lines_single text) H).
  - apply (list_pattern_loop_good _ _ _ list_patterns_single_line).
Qed.

Lemma firstn_incl {A} n (l : list A) x : In x (firstn n l) -> In x l.
Proof.
  intros H. rewrite <- (firstn_skipn n l). apply in_or_app. now left.
Qed.

Lemma _extract_list_items_incl (self : ResponseParser.t) (text : str) item :
  In item (_extract_list_items self text) -> In item (collect_items text).
Proof.
  unfold _extract_list_items. cbv zeta. rewrite fromkeys_first_seen.
  intros H. apply firstn_incl in H. now apply first_seen_In.
Qed.

(** X2. Every item that [_extract_list_items] returns is a non-empty
    single line with no white space at either end, on the pattern path
    and on the line path. *)
Theorem list_items_are_trimmed_lines (self : ResponseParser.t) (text : str) item :
  In item (_extract_list_items self text) ->
  item <> [] /\ ~ In LF item /\ trimmed item.
Proof.
  intros H. apply _extract_list_items_incl in H.
  exact (collect_items_good text item H).
Qed.

Lemma list_items_are_trimmed_lines_witness :
  py "Alpha" <> [] /\ ~ In LF (py "Alpha") /\ trimmed (py "Alpha").
Proof.
  apply (list_items_are_trimmed_lines __init__ (py "- Alpha\n- Beta\n- Alpha")).
  vm_compute. left. reflexivity.
Defined.

Lemma scan_from_demands (Q : ascii -> bool) f (r : regex) origin adv :
  demands f Q r -> forall s i pv,
  Forall (fun x => Q x = false) s -> scan_from f r origin adv i pv s = None.
Proof.
  intros Hd. induction s as [|x t IH]; intros i pv Hq; simpl;
    rewrite (exec_demands f Q r _ Hd) by exact Hq; simpl; [reflexivity|].
  apply IH. now inversion Hq.
Qed.

Lemma findall_demands (Q : ascii -> bool) f (r : regex) text :
  demands f Q r -> Forall (fun x => Q x = false) text -> findall r text f = [].
Proof.
  intros Hd Hq. unfold findall, finditer.
  replace (2 * List.length text + 2) with (S (2 * List.length text + 1)) by lia.
  cbn [matches_from start_of pos prev rest].
  now rewrite (scan_from_demands Q f r 0 false Hd).
Qed.

Lemma list_patterns_demand :
  Forall (demands MULTILINE_only bullet_or_digit) list_patterns.
Proof.
  assert (Hd : forall x, cset_match MULTILINE_only CDigit x = true -> bullet_or_digit x = true).
  { intros x Hx. unfold bullet_or_digit. simpl in Hx. rewrite Hx. apply orb_true_r. }
  assert (Hh : forall x, cset_match MULTILINE_only (CClass [CChar "-"]) x = true ->
                         bullet_or_digit x = true).
  { intros x Hx. unfold bullet_or_digit. simpl in Hx. rewrite orb_false_r in Hx.
    now rewrite Hx. }
  unfold list_patterns, bullet_pattern.
  repeat apply Forall_cons; try apply Forall_nil; simpl; tauto.
Qed.

Lemma list_pattern_loop_none (text : str) :
  Forall (fun x => bullet_or_digit x = false) text ->
  list_pattern_loop text list_patterns = [].
Proof.
  intros Hq. generalize list_patterns_demand.
  induction 1 as [|pattern more Hp _ IH]; simpl; [reflexivity|].
  now rewrite (findall_demands _ _ _ _ Hp Hq).
Qed.

(** X3. When the text has no hyphen and no digit, no list pattern
    matches and the items are those of the lines: each line trimmed,
    kept when longer than five characters, its prefix removed, then the
    duplicates removed and the first ten kept. *)
Theorem list_items_of_plain_lines (self : ResponseParser.t) (text : str) :
  Forall (fun x => bullet_or_digit x = false) text ->
  _extract_list_items self text
  = firstn 10 (first_seen (line_items (split_lines text))).
Proof.
  intros Hq. unfold _extract_list_items, collect_items. cbv zeta.
  rewrite (list_pattern_loop_none text Hq). cbn [truthy negb app].
  now rewrite fromkeys_first_seen, line_loop_items.
Qed.

Lemma list_items_of_plain_lines_witness :
  _extract_list_items __init__ (py "Acme Corporation\nGlobex Industries")
  = firstn 10 (first_seen (line_items (split_lines (py "Acme Corporation\nGlobex Industries")))).
Proof.
  apply (list_items_of_plain_lines __init__ (py "Acme Corporation\nGlobex Industries")).
  vm_compute. repeat constructor.
Defined.

End ListFacts.

(** ** Where the values come from *)

Section PartFacts.

Lemma lstrip_infix (s : str) : infix (lstrip s) s.
Proof.
  destruct (lstrip_suffix s) as [p E]. exists p, []. now rewrite app_nil_r.
Qed.

Lemma infix_rev (g s : str) : infix g s -> infix (rev g) (rev s).
Proof.
  intros [a [b ->]]. exists (rev b), (rev a).
  now rewrite !rev_app_distr, <- app_assoc.
Qed.

Lemma strip_infix (s : str) : infix (strip s) s.
Proof.
  unfold strip. eapply infix_trans; [apply lstrip_infix|].
  unfold rstrip. rewrite <- (rev_involutive s) at 2.
  apply infix_rev, lstrip_infix.
Qed.

Lemma pattern_loop_infix (text : str) c : forall patterns,
  pattern_loop text patterns = Some c -> infix c text.
Proof.
  induction patterns as [|p ps IH]; simpl; [discriminate|].
  destruct (search _ _ _) as [m|] eqn:Hs; [|exact IH].
  destruct (m_group1 m) as [g|] eqn:Hg; [|exact IH].
  destruct (long_enough (strip g)); [|exact IH].
  intros H. injection H as <-.
  eapply infix_trans; [apply strip_infix|]. eapply search_infix; eauto.
Qed.

Lemma by_header_loop_infix (text : str) c : forall hs,
  by_header_loop text hs = Ok c -> infix c text.
Proof.
  induction hs as [|h hs IH]; simpl.
  - intros H. injection H as <-. apply infix_refl_nil.
  - destruct (search _ _ _) as [m|] eqn:Hs; [|exact IH].
    destruct (m_group1 m) as [g|] eqn:Hg; [|discriminate].
    destruct (long_enough (strip g)); [|exact IH].
    intros H. injection H as <-.
    eapply infix_trans; [apply strip_infix|]. eapply search_infix; eauto.
Qed.

Lemma _extract_section_infix (self : ResponseParser.t) text ps name c :
  _extract_section self text ps name = Ok c -> infix c text.
Proof.
  unfold _extract_section. destruct (pattern_loop text ps) as [c'|] eqn:E.
  - intros H. injection H as <-. eapply pattern_loop_infix; eauto.
  - apply by_header_loop_infix.
Qed.

Lemma matches_from_infix f (r : regex) : forall fuel adv c m g,
  In m (matches_from fuel f r adv c) -> m_group1 m = Some g -> infix g (rest c).
Proof.
  induction fuel as [|fuel IH]; intros adv c m g; simpl; [contradiction|].
  destruct (scan_from _ _ _ _ _ _ _) as [m0|] eqn:E; [|contradiction].
  intros [<-|H] Hg.
  - eapply scan_from_infix; eauto.
  - destruct (scan_from_after f _ _ _ _ _ _ _ E (le_n _)) as [[p [Hp _]] _].
    simpl in Hp. rewrite Hp. apply infix_app. eapply IH; eauto.
Qed.

Lemma findall_infix f (r : regex) text g : In g (findall r text f) -> infix g text.
Proof.
  unfold findall. intros H. apply in_map_iff in H as [m [<- Hm]].
  destruct (m_group1 m) as [g'|] eqn:E; [|apply infix_refl_nil].
  apply (matches_from_infix _ _ _ _ _ _ _ Hm E).
Qed.

Lemma split_lines_acc_infix : forall s cur,
  Forall (fun line => infix line (rev cur ++ s)) (split_lines_acc cur s).
Proof.
  induction s as [|c t IH]; intros cur; simpl.
  - constructor; [|constructor]. exists [], []. now rewrite app_nil_r.
  - destruct (Ascii.eqb c LF).
    + constructor; [exists [], (c :: t); reflexivity|].
      eapply Forall_impl; [|apply (IH [])]. simpl. intros line H.
      apply (infix_app line (rev cur ++ [c])) in H. now rewrite <- app_assoc in H.
    + specialize (IH (c :: cur)). simpl in IH. now rewrite <- app_assoc in IH.
Qed.

Lemma line_items_infix (text : str) item :
  In item (line_items (split_lines text)) -> infix item text.
Proof.
  unfold line_items. intros H. apply filter_In in H as [H _].
  apply in_map_iff in H as [line [<- H]]. apply filter_In in H as [H _].
  pose proof (split_lines_acc_infix text []) as HF. rewrite Forall_forall in HF.
  apply HF in H. simpl in H.
  eapply infix_trans; [|exact H]. eapply infix_trans; [|apply strip_infix].
  destruct (drop_while_suffix prefix_char (strip line)) as [w [E _]].
  exists w, []. now rewrite app_nil_r.
Qed.

Lemma list_pattern_loop_infix (text : str) item : forall patterns,
  In item (list_pattern_loop text patterns) -> infix item text.
Proof.
  induction patterns as [|p ps IH]; simpl; [contradiction|].
  destruct (truthy (findall p text MULTILINE_only)); [|exact IH].
  unfold stripped_nonempty. intros H.
  apply in_map_iff in H as [g [<- H]]. apply filter_In in H as [H _].
  eapply infix_trans; [apply strip_infix|]. eapply findall_infix; eauto.
Qed.

(** X4. Every item that [_extract_list_items] returns is a contiguous
    part of its text. *)
Theorem list_items_are_parts (self : ResponseParser.t) (text : str) item :
  In item (_extract_list_items self text) -> infix item text.
Proof.
  intros H. apply _extract_list_items_incl in H. unfold collect_items in H.
  destruct (negb (truthy (list_pattern_loop text list_patterns))).
  - apply in_app_or in H as [H|H].
    + eapply list_pattern_loop_infix; eauto.
    + rewrite line_loop_items in H. now apply line_items_infix.
  - eapply list_pattern_loop_infix; eauto.
Qed.

Lemma list_items_are_parts_witness :
  infix (py "Beta") (py "- Alpha\n- Beta\n- Alpha").
Proof.
  apply (list_items_are_parts __init__ (py "- Alpha\n- Beta\n- Alpha")).
  vm_compute. right. left. reflexivity.
Defined.

Variable self : ResponseParser.t.

Lemma section_loop_from (text : str) : forall items d d',
  (forall k v, dict_get d k = Some v -> value_from self text v) ->
  section_loop self text items d = Ok d' ->
  forall k v, dict_get d' k = Some v -> value_from self text v.
Proof.
  induction items as [|[name ps] items IH]; intros d d' Hd; simpl.
  - intros H. injection H as <-. exact Hd.
  - destruct (_extract_section self text ps name) as [c|e] eqn:E; [|discriminate].
    simpl. apply IH. intros k v.
    destruct (Str.eqb k name) eqn:Ek.
    + apply eqb_eq in Ek. subst. rewrite dict_get_set_same.
      intros H. injection H as <-. simpl. eapply _extract_section_infix; eauto.
    + apply eqb_neq in Ek. rewrite dict_get_set_other by exact Ek. apply Hd.
Qed.

Lemma listify_from (text : str) d d' key :
  (forall k v, dict_get d k = Some v -> value_from self text v) ->
  listify self d key = Ok d' ->
  forall k v, dict_get d' k = Some v -> value_from self text v.
Proof.
  intros Hd. unfold listify, get_truthy, dict_index.
  destruct (dict_get d key) as [v0|] eqn:E0.
  - destruct (value_truthy v0).
    + simpl. destruct v0 as [c|l]; [|discriminate].
      intros H. injection H as <-. intros k v.
      destruct (Str.eqb k key) eqn:Ek.
      * apply eqb_eq in Ek. subst. rewrite dict_get_set_same.
        intros H. injection H as <-. simpl. exists c. split; [|reflexivity].
        apply (Hd _ _ E0).
      * apply eqb_neq in Ek. rewrite dict_get_set_other by exact Ek. apply Hd.
    + intros H. injection H as <-. exact Hd.
  - intros H. injection H as <-. exact Hd.
Qed.

Lemma empty_result_from (text : str) k v :
  dict_get (_get_empty_result self) k = Some v -> value_from self text v.
Proof.
  unfold _get_empty_result. cbn [dict_get].
  repeat (destruct (Str.eqb _ k);
          [intros H; injection H as <-; cbn [value_from];
           first [apply infix_refl_nil
                 |exists []; split; [apply infix_refl_nil|reflexivity]]|]).
  discriminate.
Qed.

Lemma parse_values_from (response : str) d :
  parse_research_response self response = Ok d ->
  forall k v, dict_get d k = Some v ->
    value_from self (_clean_response self response) v.
Proof.
  unfold parse_research_response.
  destruct (negb (truthy response) || Str.eqb (strip response) []).
  - intros H. injection H as <-. intros k v. apply empty_result_from.
  - generalize (_clean_response self response). intros text.
    destruct (section_loop self text (section_patterns self) []) as [d0|] eqn:E0;
      [|discriminate].
    cbn [bind].
    destruct (listify self d0 (py "key_players")) as [d1|] eqn:E1; [|discriminate].
    cbn [bind].
    destruct (listify self d1 (py "trends")) as [d2|] eqn:E2; [|discriminate].
    cbn [bind]. intros H. injection H as <-.
    eapply listify_from; [|exact E2].
    eapply listify_from; [|exact E1].
    eapply section_loop_from; [|exact E0].
    intros k v H. discriminate.
Qed.

(** X5. What a parsed record holds comes from the cleaned response:
    every string value and every item of a list value is a contiguous
    part of it, the items are non-empty trimmed single lines, and a
    list value has no duplicates and at most ten items. *)
Theorem parsed_values_are_parts (response : str) d :
  parse_research_response self response = Ok d ->
  (forall k c, dict_get d k = Some (VStr c) -> infix c (_clean_response self response))
  /\ (forall k l item, dict_get d k = Some (VList l) -> In item l ->
        infix item (_clean_response self response)
        /\ item <> [] /\ ~ In LF item /\ trimmed item)
  /\ (forall k l, dict_get d k = Some (VList l) -> NoDup l /\ List.length l <= 10).
Proof.
  intros H. pose proof (parse_values_from response d H) as Hv.
  split; [|split].
  - intros k c Hk. apply (Hv k _ Hk).
  - intros k l item Hk Hin. destruct (Hv k _ Hk) as [c [Hc ->]]. split.
    + eapply infix_trans; [|exact Hc]. eapply list_items_are_parts; eauto.
    + eapply list_items_are_trimmed_lines; eauto.
  - intros k l Hk. destruct (Hv k _ Hk) as [c [Hc ->]].
    unfold _extract_list_items. cbv zeta. rewrite fromkeys_first_seen. split.
    + apply firstn_NoDup, first_seen_NoDup.
    + apply firstn_le_length.
Qed.

End PartFacts.

Lemma parsed_values_are_parts_witness :
  infix (py "Foo bar baz qux quux.")
        (_clean_response __init__ (py "## EXECUTIVE SUMMARY\nFoo bar baz qux quux.")).
Proof.
  match eval vm_compute in
    (parse_research_response __init__ (py "## EXECUTIVE SUMMARY\nFoo bar baz qux quux.")) with
  | Ok ?d =>
      apply (proj1 (parsed_values_are_parts __init__
                      (py "## EXECUTIVE SUMMARY\nFoo bar baz qux quux.") d
                      ltac:(vm_compute; reflexivity))
                   (py "summary"))
  end.
  vm_compute. reflexivity.
Defined.

(** ** The validation report and the confidence score *)

Section ScoreFacts.

Lemma dict_get_missing {V} (d : dict V) k : ~ In k (keys d) -> dict_get d k = None.
Proof.
  intros H. destruct (dict_get d k) as [v|] eqn:E; [|reflexivity].
  apply dict_get_in_keys in E. contradiction.
Qed.

(** X6. For a section name that is none of the six,
    [_extract_by_header] finds no headers and returns the empty
    string, and so does [_extract_section] without patterns. *)
Theorem unknown_section_is_empty (self : ResponseParser.t) (text name : str) :
  ~ In name field_names ->
  _extract_by_header self text name = Ok []
  /\ _extract_section self text [] name = Ok [].
Proof.
  intros H.
  assert (E : _extract_by_header self text name = Ok []).
  { unfold _extract_by_header. now rewrite (dict_get_missing headers name H). }
  split; [exact E|]. unfold _extract_section. simpl. exact E.
Qed.

Lemma unknown_section_is_empty_witness :
  _extract_by_header __init__ (py "CONCLUSION: all is well and good") (py "conclusion") = Ok []
  /\ _extract_section __init__ (py "CONCLUSION: all is well and good") [] (py "conclusion")
     = Ok [].
Proof.
  apply (unknown_section_is_empty __init__).
  vm_compute. intuition discriminate.
Defined.

Lemma validation_report_keys (self : ResponseParser.t) (data : dict value) :
  keys (validate_parsed_data self data) = field_names.
Proof.
  vm_compute. reflexivity.
Qed.

Lemma report_section (self : ResponseParser.t) data k :
  In k ResearchEngine.sections ->
  marked (validate_parsed_data self data) k = if adequate data k then 1 else 0.
Proof.
  intros Hin. unfold marked.
  repeat (destruct Hin as [<-|Hin];
          [read_report; now destruct (adequate data _)|]).
  destruct Hin.
Qed.

Lemma report_list (self : ResponseParser.t) data k :
  In k [py "key_players"; py "trends"] ->
  marked (validate_parsed_data self data) k = if get_truthy data k then 1 else 0.
Proof.
  intros Hin. unfold marked.
  repeat (destruct Hin as [<-|Hin];
          [read_report; now destruct (get_truthy data _)|]).
  destruct Hin.
Qed.

Lemma section_score_sum (data : dict value) : forall ks score,
  section_score data ks score
  = Ok (score + 20 * List.length (filter (adequate data) ks)).
Proof.
  induction ks as [|k ks IH]; intros score; cbn [section_score filter].
  - f_equal. cbn [List.length]. lia.
  - unfold adequate at 1, get_truthy, dict_index.
    destruct (dict_get data k) as [v|]; cbn [Py.bind value_truthy truthy andb].
    + destruct (value_truthy v); cbn [andb Py.bind].
      * rewrite IH. destruct (50 <? value_len v); cbn [List.length]; f_equal; lia.
      * apply IH.
    + apply IH.
Qed.

Lemma report_get_section (self : ResponseParser.t) data k :
  In k ResearchEngine.sections ->
  dict_get (validate_parsed_data self data) k = Some (adequate data k).
Proof.
  intros Hin. repeat (destruct Hin as [<-|Hin]; [now read_report|]). destruct Hin.
Qed.

Lemma report_get_list (self : ResponseParser.t) data k :
  In k [py "key_players"; py "trends"] ->
  dict_get (validate_parsed_data self data) k = Some (get_truthy data k).
Proof.
  intros Hin. repeat (destruct Hin as [<-|Hin]; [now read_report|]). destruct Hin.
Qed.

(** X7. The confidence score is read off the validation report: 20
    points for each string field marked true, 10 for each list field
    marked true, 5 when there is news, capped at 100; it never raises,
    and it is 100 exactly when all six fields are marked true. *)
Theorem confidence_score_of_report {A} (self : ResponseParser.t)
  (parsed_data : dict value) (news_data : list A) :
  let report := validate_parsed_data self parsed_data in
  let points :=
    20 * (marked report (py "summary") + marked report (py "market_analysis")
          + marked report (py "technical_details")
          + marked report (py "business_opportunities"))
    + 10 * (marked report (py "key_players") + marked report (py "trends"))
    + (if truthy news_data then 5 else 0) in
  exists score,
    _calculate_confidence_score parsed_data news_data = Ok score
    /\ score = Nat.min points 100
    /\ score <= 100
    /\ (score = 100 <->
        Forall (fun k => dict_get report k = Some true) field_names).
Proof.
  cbv zeta.
  unfold _calculate_confidence_score. rewrite section_score_sum.
  unfold ResearchEngine.sections. cbn [Py.bind filter].
  eexists. split; [reflexivity|].
  unfold field_names. rewrite !Forall_cons_iff, Forall_nil_iff.
  unfold marked.
  rewrite !(report_get_section self parsed_data) by (vm_compute; tauto).
  rewrite !(report_get_list self parsed_data) by (vm_compute; tauto).
  generalize (adequate parsed_data (py "summary")),
             (adequate parsed_data (py "market_analysis")),
             (adequate parsed_data (py "technical_details")),
             (adequate parsed_data (py "business_opportunities")),
             (get_truthy parsed_data (py "key_players")),
             (get_truthy parsed_data (py "trends")),
             (truthy news_data).
  intros b1 b2 b3 b4 b5 b6 b7.
  destruct b1, b2, b3, b4, b5, b6, b7; vm_compute;
    (split; [reflexivity|split; [lia|]]);
    (split; [intros H; first [discriminate H | tauto]
            |intros H; first [reflexivity | exfalso; intuition discriminate]]).
Qed.

End ScoreFacts.
